(** * generic-tasks: tasks, pipelines and their shared run context

    A shallow embedding of [src/lib/task.ts], [src/lib/pipeline.ts],
    [src/errors.ts] and [src/types.ts], and of [executeTool] and
    [ToolError] of [src/lib/tool.ts] (the tools themselves call the
    network and are not represented).

    JavaScript objects live in a store ([Heap]) and are passed around by
    location, so that the context object a pipeline creates, the one its
    caller supplied, and the one an error carries can be told apart.  A step
    or a selector is user code: it is modelled as an arbitrary function on
    the store that returns or throws.  [await] is sequential in this library
    (one step at a time), so a step is one atomic store transformer.

    Limits of the model: error objects are immutable values (their identity
    is their value); property values are primitives or errors, the step log
    being the one array; a task's step list does not change while it runs;
    user code is a total function, so a step whose promise never settles is
    not represented. *)

From stdpp Require Import gmap strings list fin_maps.

Set Warnings "-register-all".

(** ** Data model (src/types.ts, src/errors.ts) *)

Definition loc := nat.

(** [status: "pending" | "success" | "failure"] *)
Inductive Status := pending | success | failure.

Global Instance Status_eq_dec : EqDecision Status.
Proof. solve_decision. Defined.

(** Values that flow between steps and that may be thrown.  [VTaskError] and
    [VPipelineError] are the two classes of src/errors.ts, each with the
    fields its constructor sets; the context is held by reference. *)
Inductive Value :=
  | VUndefined
  | VString (s : string)
  | VNumber (z : Z)
  | VError (message : string)
  | VTypeError (message : string)
  | VTaskError (code : string) (context : loc) (errors : list Value)
               (message : string)
  | VPipelineError (errors : list Value) (context : loc) (message : string).

(** One entry of [BaseContext.steps]; the optional fields are [None] until
    they are assigned. *)
Record StepRecord := mkStepRecord {
  name : string;
  status : Status;
  input : option Value;
  output : option Value;
  error : option Value
}.

(** A property of a context object: a plain value, or the step log array. *)
Inductive Property :=
  | PValue (v : Value)
  | PSteps (l : list StepRecord).

(** A JavaScript object as a finite map from property names. *)
Abbreviation Obj := (gmap string Property).

(** The store of objects. *)
Abbreviation Heap := (gmap loc Obj).

(** How a call ends: it returns a value or throws one. *)
Inductive Completion (A : Type) :=
  | Return (a : A)
  | Throw (e : Value).
Arguments Return {A} a.
Arguments Throw {A} e.

(** User code called with [(input, context)]: a step body or a selector. *)
Definition Fn := Value → loc → Heap → Heap * Completion Value.

(** [Step]: an async function; [step_name] is the function's [name]. *)
Record Step := mkStep {
  step_name : string;
  step_fn : Fn
}.

(** [class Task]: [name] and [steps]. *)
Record Task := mkTask {
  task_name : string;
  task_steps : list Step
}.

(** [new TaskError(code, context, errors)], message defaulted. *)
Definition TaskError (code : string) (context : loc) (errors : list Value) : Value :=
  VTaskError code context errors "Task failed".

(** [new PipelineError(errors, context)], message defaulted. *)
Definition PipelineError (errors : list Value) (context : loc) : Value :=
  VPipelineError errors context "Pipeline failed".

(** [error instanceof TaskError] *)
Definition instanceof_TaskError (e : Value) : bool :=
  match e with
  | VTaskError _ _ _ _ => true
  | _ => false
  end.

(** ** Access to the step log of a context *)

(** [context.steps], when the context is an object whose [steps] is the log
    array; [None] when the context or the array is missing, in which case
    any use of [context.steps.push] or [context.steps[i].f] is a TypeError. *)
Definition get_steps (context : loc) (h : Heap) : option (list StepRecord) :=
  match h !! context with
  | Some o =>
      match o !! "steps" with
      | Some (PSteps l) => Some l
      | _ => None
      end
  | None => None
  end.

(** The log array is mutated in place: the object keeps its other
    properties. *)
Definition put_steps (context : loc) (l : list StepRecord) (h : Heap) : Heap :=
  match h !! context with
  | Some o => <[context := <["steps" := PSteps l]> o]> h
  | None => h
  end.

(** The TypeError of reading or writing through [undefined]. *)
Definition undefined_access : Value :=
  VTypeError "Cannot read properties of undefined".

(** [context.steps.push(...records)] *)
Definition push_steps (context : loc) (records : list StepRecord) (h : Heap)
  : option Heap :=
  match get_steps context h with
  | Some l => Some (put_steps context (l ++ records) h)
  | None => None
  end.

(** [context.steps[context.steps.length - 1].f = v], as an update [upd] of
    the last record; [None] (a TypeError) when the log is missing or empty,
    index [-1] of an array being [undefined] (on [nat], [0 - 1] is [0], and
    an empty list has no entry there either). *)
Definition set_last (upd : StepRecord → StepRecord) (context : loc) (h : Heap)
  : option Heap :=
  match get_steps context h with
  | Some l =>
      match l !! (length l - 1) with
      | Some r => Some (put_steps context (<[length l - 1 := upd r]> l) h)
      | None => None
      end
  | None => None
  end.

Definition set_input (v : Value) (r : StepRecord) : StepRecord :=
  mkStepRecord (name r) (status r) (Some v) (output r) (error r).
Definition set_status (s : Status) (r : StepRecord) : StepRecord :=
  mkStepRecord (name r) s (input r) (output r) (error r).
Definition set_output (v : Value) (r : StepRecord) : StepRecord :=
  mkStepRecord (name r) (status r) (input r) (Some v) (error r).
Definition set_error (e : Value) (r : StepRecord) : StepRecord :=
  mkStepRecord (name r) (status r) (input r) (output r) (Some e).

(** ** Task (src/lib/task.ts) *)

(** [constructor({ name, steps })]: [steps] may be omitted ([None]); the
    field starts as [[]] and receives the given steps when [steps?.length]
    is truthy. *)
Definition Task_new (name : string) (steps : option (list Step)) : Task :=
  mkTask name
    (match steps with
     | Some l => if decide (length l = 0) then [] else [] ++ l
     | None => []
     end).

(** [get id()] *)
Definition Task_id (t : Task) : string :=
  String.concat "." (map step_name (task_steps t)).

(** [push(...steps)]: a TypeError for no argument. *)
Definition Task_push (t : Task) (steps : list Step) : Completion Task :=
  if decide (length steps = 0)
  then Throw (VTypeError "Expected at least one step")
  else Return (mkTask (task_name t) (task_steps t ++ steps)).

(** [{ name: step.name, status: "pending" }] *)
Definition pending_record (s : Step) : StepRecord :=
  mkStepRecord (step_name s) pending None None None.

(** [error instanceof TaskError ? error
       : new TaskError("FALL_THROUGH", context, [error])] *)
Definition rethrown (err : Value) (context : loc) : Value :=
  if instanceof_TaskError err then err
  else TaskError "FALL_THROUGH" context [err].

(** The [catch (error)] block of [run]. *)
Definition run_catch (err : Value) (context : loc) (h : Heap)
  : Heap * Completion Value :=
  match set_last (set_status failure) context h with
  | None => (h, Throw undefined_access)
  | Some h1 =>
      match set_last (set_error err) context h1 with
      | None => (h1, Throw undefined_access)
      | Some h2 =>
          (h2, Throw (rethrown err context))
      end
  end.

(** The [for (const step of this.steps)] loop of [run], [output] being the
    loop-carried variable. *)
Fixpoint run_steps (steps : list Step) (output : Value) (context : loc)
    (h : Heap) : Heap * Completion Value :=
  match steps with
  | [] => (h, Return output)
  | step :: rest =>
      match set_last (set_input output) context h with
      | None => (h, Throw undefined_access)
      | Some h1 =>
          match step_fn step output context h1 with
          | (h2, Return out) =>
              match set_last (set_status success) context h2 with
              | None => run_catch undefined_access context h2
              | Some h3 =>
                  match set_last (set_output out) context h3 with
                  | None => run_catch undefined_access context h3
                  | Some h4 => run_steps rest out context h4
                  end
              end
          | (h2, Throw err) => run_catch err context h2
          end
      end
  end.

(** [async run(input, context)]; the returned [{ output }] is its value. *)
Definition Task_run (t : Task) (input : Value) (context : loc) (h : Heap)
  : Heap * Completion Value :=
  match push_steps context (map pending_record (task_steps t)) h with
  | None => (h, Throw undefined_access)
  | Some h0 => run_steps (task_steps t) input context h0
  end.

(** ** Pipeline (src/lib/pipeline.ts) *)

(** The [selector] property of a configuration object: the key may be
    absent, present and [undefined], or present and a function. *)
Inductive SelectorField :=
  | NoSelector
  | UndefinedSelector
  | Selector (f : Fn).

(** [PipelineConfiguration]: a bare [Task], or [{ selector?, task }]. *)
Inductive PipelineConfiguration :=
  | BareTask (t : Task)
  | Entry (selector : SelectorField) (task : Task).

(** [class Pipeline]: [name] and [tasks]. *)
Record Pipeline := mkPipeline {
  pipeline_name : string;
  pipeline_tasks : list PipelineConfiguration
}.

(** [{ output, context }] *)
Record PipelineOutput := mkPipelineOutput {
  po_output : Value;
  po_context : loc
}.

(** [constructor({ name, tasks })]: a TypeError for an empty list. *)
Definition Pipeline_new (name : string) (tasks : list PipelineConfiguration)
  : Completion Pipeline :=
  if decide (length tasks = 0)
  then Throw (VTypeError "Expected at least one task")
  else Return (mkPipeline name ([] ++ tasks)).

(** ["task" in task ? task.task : task] *)
Definition taskFn (cfg : PipelineConfiguration) : Task :=
  match cfg with
  | BareTask t => t
  | Entry _ t => t
  end.

(** ["selector" in task ? task.selector?.(output, ctx) : output] *)
Definition taskInput (cfg : PipelineConfiguration) (output : Value) (ctx : loc)
    (h : Heap) : Heap * Completion Value :=
  match cfg with
  | BareTask _ => (h, Return output)
  | Entry NoSelector _ => (h, Return output)
  | Entry UndefinedSelector _ => (h, Return VUndefined)
  | Entry (Selector f) _ => f output ctx h
  end.

(** The body of the [try] block: the new value of [output], or what was
    thrown. *)
Definition run_configuration (cfg : PipelineConfiguration) (output : Value)
    (ctx : loc) (h : Heap) : Heap * Completion Value :=
  match taskInput cfg output ctx h with
  | (h1, Return v) => Task_run (taskFn cfg) v ctx h1
  | (h1, Throw e) => (h1, Throw e)
  end.

(** [ctx.steps.filter((step) => step.status === "failure")
       .map((step) => step.error)] *)
Definition failure_errors (l : list StepRecord) : list Value :=
  map (λ step, default VUndefined (error step))
      (filter (λ step, status step = failure) l).

(** The [catch (error)] block of [Pipeline.run]; the caught value is not
    used. *)
Definition pipeline_catch (ctx : loc) (h : Heap)
  : Heap * Completion PipelineOutput :=
  match get_steps ctx h with
  | Some l => (h, Throw (PipelineError (failure_errors l) ctx))
  | None => (h, Throw undefined_access)
  end.

(** The [for (const task of this.tasks)] loop and the final [return]. *)
Fixpoint run_tasks (tasks : list PipelineConfiguration) (output : Value)
    (ctx : loc) (h : Heap) : Heap * Completion PipelineOutput :=
  match tasks with
  | [] => (h, Return (mkPipelineOutput output ctx))
  | task :: rest =>
      match run_configuration task output ctx h with
      | (h1, Return taskOutput) => run_tasks rest taskOutput ctx h1
      | (h1, Throw _) => pipeline_catch ctx h1
      end
  end.

(** [{ steps: [] }] *)
Definition baseContext : Obj := {["steps" := PSteps []]}.

(** [{ ...a, ...b }]: the properties of [b] win. *)
Definition spread (a b : Obj) : Obj := b ∪ a.

(** The object read at a location, [undefined] spreading as no property. *)
Definition deref (context : loc) (h : Heap) : Obj := default ∅ (h !! context).

(** The location of the object [Pipeline.run] creates. *)
Definition new_loc (h : Heap) : loc := fresh (dom h : gset loc).

(** [async run(input, context)] *)
Definition Pipeline_run (p : Pipeline) (input : Value) (context : loc)
    (h : Heap) : Heap * Completion PipelineOutput :=
  let ctx := new_loc h in
  let h0 := <[ctx := spread (deref context h) baseContext]> h in
  run_tasks (pipeline_tasks p) input ctx h0.

(** ** Sample programs *)

(** A sample step: on a string [x] it returns [prefix + x + suffix]; it
    accepts strings only and rejects any other value with a TypeError of
    its own (it is not JavaScript's [+], which would convert the value). *)
Definition concat_step (prefix suffix : string) : Step :=
  mkStep "" (λ x _ h,
    match x with
    | VString s => (h, Return (VString (prefix +:+ s +:+ suffix)))
    | _ => (h, Throw (VTypeError "not a string"))
    end).

(** [() => { throw new Error(message) }] *)
Definition throw_step (message : string) : Step :=
  mkStep "" (λ _ _ h, (h, Throw (VError message))).

Definition task_ab : Task :=
  Task_new "ab" (Some [concat_step "a:" ""; concat_step "" ":b"]).

Definition task_boom : Task :=
  Task_new "boom" (Some [concat_step "a:" ""; throw_step "boom"; concat_step "" ":c"]).

(** A store holding one standalone context [{ steps: [] }] at location 0. *)
Definition heap0 : Heap := {[0 := baseContext]}.

(** [(x) => f(x)], a step that only computes. *)
Definition pure_step (name : string) (f : Value → Value) : Step :=
  mkStep name (λ x _ h, (h, Return (f x))).

Definition status_name (s : Status) : string :=
  match s with
  | pending => "pending"
  | success => "success"
  | failure => "failure"
  end.

(** [(_, context) => context.steps[i]?.status], a step that observes the
    log it runs under. *)
Definition probe_step (i : nat) : Step :=
  mkStep "probe" (λ _ c h,
    (h, Return (match get_steps c h ≫= (.!! i) with
                | Some r => VString (status_name (status r))
                | None => VUndefined
                end))).

Definition task_probe : Task :=
  Task_new "probe" (Some [concat_step "a:" ""; probe_step 0]).

(** Three tasks, the second of which fails in its second step. *)
Definition pipeline_abort : Pipeline :=
  mkPipeline "abort" [BareTask task_ab; BareTask task_boom; BareTask task_ab].

(** A sample selector: on a string [out] it returns [out + "!"]; it hands
    any other value on as it is (it is not JavaScript's [+]). *)
Definition bang : Fn :=
  λ out _ h,
    (h, Return (match out with
                | VString s => VString (s +:+ "!")
                | _ => out
                end)).

(** The task that returns its input with ["<"] and [">"] around it. *)
Definition task_wrap : Task :=
  Task_new "wrap" (Some [concat_step "<" ">"]).

(** Two tasks, the second behind a selector. *)
Definition pipeline_ok : Pipeline :=
  mkPipeline "ok" [BareTask task_ab; Entry (Selector bang) task_wrap].

(** ** Vocabulary of the statements *)

(** The contract of user code towards the log (spec, External interfaces):
    a step or selector leaves [context.steps] of the context it is handed
    as it found it. *)
Definition keeps_log (f : Fn) : Prop :=
  ∀ v c h, get_steps c (f v c h).1 = get_steps c h.

(** In the run of [t] on [input], the steps [pre] return, the next step [s]
    is called with their result and raises [err]; [h2] is the store at that
    moment. *)
Definition raises_at (t : Task) (pre : list Step) (s : Step) (input : Value)
    (c : loc) (h : Heap) (err : Value) (h2 : Heap) : Prop :=
  ∃ post hp h1 v h1',
    task_steps t = pre ++ s :: post ∧
    push_steps c (map pending_record (task_steps t)) h = Some hp ∧
    run_steps pre input c hp = (h1, Return v) ∧
    set_last (set_input v) c h1 = Some h1' ∧
    step_fn s v c h1' = (h2, Throw err).

(** A configuration whose user code keeps to that contract. *)
Definition config_keeps_log (cfg : PipelineConfiguration) : Prop :=
  Forall (λ s, keeps_log (step_fn s)) (task_steps (taskFn cfg)) ∧
  match cfg with
  | Entry (Selector f) _ => keeps_log f
  | _ => True
  end.

(** User code that does not write to the object at [context] when it is
    handed another context. *)
Definition leaves (context : loc) (f : Fn) : Prop :=
  ∀ v c h, c ≠ context → (f v c h).1 !! context = h !! context.

Definition config_leaves (context : loc) (cfg : PipelineConfiguration) : Prop :=
  Forall (λ s, leaves context (step_fn s)) (task_steps (taskFn cfg)) ∧
  match cfg with
  | Entry (Selector f) _ => leaves context f
  | _ => True
  end.

(** [task_runs ctx tasks output h logs h']: run one after the other from
    the store [h] and the accumulated value [output], the configurations
    [tasks] all return and leave the store [h']; [logs] has, for each of
    them in order, the records its task appended to the log of [ctx], one
    per step of the task, and the output of its task. *)
Inductive task_runs (ctx : loc) :
    list PipelineConfiguration → Value → Heap →
    list (list StepRecord * Value) → Heap → Prop :=
  | task_runs_nil output h :
      task_runs ctx [] output h [] h
  | task_runs_cons task rest output h l recs taskOutput h1 logs h' :
      get_steps ctx h = Some l →
      run_configuration task output ctx h = (h1, Return taskOutput) →
      get_steps ctx h1 = Some (l ++ recs) →
      map name recs = map step_name (task_steps (taskFn task)) →
      task_runs ctx rest taskOutput h1 logs h' →
      task_runs ctx (task :: rest) output h ((recs, taskOutput) :: logs) h'.

(** ** Tools (src/lib/tool.ts) *)

(** [enum ToolType { Tool = "tool" }] *)
Inductive ToolType := ToolType_Tool.

(** The [spec] property of a tool. *)
Record ToolSpec := mkToolSpec {
  spec_input : string;
  spec_output : string;
  spec_args : gmap string Value
}.

(** [BaseToolContext] *)
Record BaseToolContext := mkToolContext {
  args : gmap string Value
}.

(** [interface Tool], the outcome of one call of [execute] (its promise is
    fulfilled or rejected), and what it may be rejected with: a
    [ToolError], which holds the tool it is about, or any other value. *)
Inductive Tool :=
  | mkTool (id name : string) (type : ToolType) (description : string)
           (keywords : list string) (spec : ToolSpec)
           (execute : Value → BaseToolContext → Settled)
with Settled :=
  | Fulfilled (v : Value)
  | Rejected (e : Thrown)
with Thrown :=
  | NotToolError (v : Value)
  | VToolError (code : string) (tool : Tool) (errors : list Thrown)
               (message : string).

Definition tool_name (t : Tool) : string :=
  match t with mkTool _ name _ _ _ _ _ => name end.

Definition tool_execute (t : Tool) : Value → BaseToolContext → Settled :=
  match t with mkTool _ _ _ _ _ _ execute => execute end.

(** [new ToolError(code, tool, errors, message)], the message defaulting to
    [`Failed to execute tool ${tool.name}`]. *)
Definition ToolError (code : string) (tool : Tool) (errors : list Thrown)
    (message : option string) : Thrown :=
  VToolError code tool errors
    (default ("Failed to execute tool " +:+ tool_name tool) message).

(** [error instanceof ToolError] *)
Definition instanceof_ToolError (e : Thrown) : bool :=
  match e with
  | VToolError _ _ _ _ => true
  | NotToolError _ => false
  end.

(** [async function executeTool(tool, input, context)] *)
Definition executeTool (tool : Tool) (input : Value)
    (context : BaseToolContext) : Settled :=
  match tool_execute tool input context with
  | Fulfilled output => Fulfilled output
  | Rejected error =>
      Rejected (if instanceof_ToolError error then error
                else ToolError "E_FALL" tool [error]
                       (Some ("Uncaucht error in tool " +:+ tool_name tool)))
  end.

(** The tool [tool] with [executeTool] around its [execute], as a caller
    that guards a tool twice would build it. *)
Definition guarded (tool : Tool) : Tool :=
  match tool with
  | mkTool id name type description keywords spec _ =>
      mkTool id name type description keywords spec (executeTool tool)
  end.

(** ** More vocabulary *)

(** Property [k] of the object at [l]. *)
Definition prop_at (l : loc) (k : string) (h : Heap) : option Property :=
  h !! l ≫= (.!! k).

(** User code that, called with the context [c], leaves property [k] of
    the object at [l] as it is. *)
Definition preserves (c l : loc) (k : string) (f : Fn) : Prop :=
  ∀ v h, prop_at l k (f v c h).1 = prop_at l k h.

Definition config_preserves (c l : loc) (k : string)
    (cfg : PipelineConfiguration) : Prop :=
  Forall (λ s, preserves c l k (step_fn s)) (task_steps (taskFn cfg)) ∧
  match cfg with
  | Entry (Selector f) _ => preserves c l k f
  | _ => True
  end.

(** A task, and a bare configuration, whose steps only compute. *)
Definition pure_task (nfs : list (string * (Value → Value))) : Task :=
  mkTask "" (map (λ nf, pure_step nf.1 nf.2) nfs).

Definition pure_config (nfs : list (string * (Value → Value)))
  : PipelineConfiguration := BareTask (pure_task nfs).

(** Sample functions on integers, exact on [Z]: the successor and the
    double; any other value is returned as it is. *)
Definition inc (x : Value) : Value :=
  match x with VNumber z => VNumber (z + 1) | _ => x end.
Definition dbl (x : Value) : Value :=
  match x with VNumber z => VNumber (2 * z) | _ => x end.

(** [(input) => input], the selector of the README's examples. *)
Definition identity_selector : Fn := λ out _ h, (h, Return out).

(** A configuration that hands the accumulated output to its task as it
    is: a bare task, an entry without selector, or an entry whose selector
    is the identity. *)
Definition passes_output (cfg : PipelineConfiguration) : Prop :=
  match cfg with
  | BareTask _ => True
  | Entry NoSelector _ => True
  | Entry (Selector f) _ => f = identity_selector
  | Entry UndefinedSelector _ => False
  end.

(** Two configurations of that kind for the same task, in whichever of the
    three forms each. *)
Definition same_task (cfg1 cfg2 : PipelineConfiguration) : Prop :=
  passes_output cfg1 ∧ passes_output cfg2 ∧ taskFn cfg1 = taskFn cfg2.

(** A selector that throws. *)
Definition throwing_selector : Fn :=
  λ _ _ h, (h, Throw (VError "no input")).

(** A tool that rejects with a plain error, and one that fulfils. *)
Definition tool_down : Tool :=
  mkTool "down" "Down" ToolType_Tool "always fails" [] 
    (mkToolSpec "string" "string" ∅)
    (λ _ _, Rejected (NotToolError (VError "offline"))).

Definition tool_echo : Tool :=
  mkTool "echo" "Echo" ToolType_Tool "returns its input" []
    (mkToolSpec "string" "string" ∅)
    (λ x _, Fulfilled x).

(** ** The step log under [put_steps], [push_steps] and [set_last] *)

Lemma get_steps_Some (c : loc) (h : Heap) (l : list StepRecord) :
  get_steps c h = Some l ↔
  ∃ o : Obj, h !! c = Some o ∧ o !! "steps" = Some (PSteps l).
Proof.
  unfold get_steps. split.
  - destruct (h !! c) as [o|] eqn:Ho; [|done].
    destruct (o !! "steps") as [[v|l']|] eqn:Hs; try done.
    intros [= ->]. eauto.
  - intros (o & -> & ->). done.
Qed.

Lemma get_put_steps (c : loc) (h : Heap) (l l' : list StepRecord) :
  get_steps c h = Some l → get_steps c (put_steps c l' h) = Some l'.
Proof.
  intros (o & Ho & _)%get_steps_Some. unfold put_steps. rewrite Ho.
  apply get_steps_Some. exists (<["steps" := PSteps l']> o).
  by rewrite !lookup_insert_eq.
Qed.

Lemma put_steps_other (c c' : loc) (h : Heap) (l : list StepRecord) :
  c ≠ c' → put_steps c l h !! c' = h !! c'.
Proof.
  intros Hne. unfold put_steps. destruct (h !! c); [|done].
  by rewrite lookup_insert_ne.
Qed.

Lemma put_steps_id (c : loc) (h : Heap) (l : list StepRecord) :
  get_steps c h = Some l → put_steps c l h = h.
Proof.
  intros (o & Ho & Hs)%get_steps_Some. unfold put_steps. rewrite Ho.
  rewrite (insert_id o "steps" _ Hs). by apply insert_id.
Qed.

Lemma push_steps_Some (c : loc) (h : Heap) (l recs : list StepRecord) :
  get_steps c h = Some l →
  push_steps c recs h = Some (put_steps c (l ++ recs) h).
Proof. intros H. unfold push_steps. by rewrite H. Qed.

Lemma set_last_snoc (upd : StepRecord → StepRecord) (c : loc) (h : Heap)
    (l : list StepRecord) (r : StepRecord) :
  get_steps c h = Some (l ++ [r]) →
  set_last upd c h = Some (put_steps c (l ++ [upd r]) h).
Proof.
  intros H. unfold set_last. rewrite H.
  replace (length (l ++ [r]) - 1) with (length l + 0)
    by (rewrite length_app; simpl; lia).
  rewrite lookup_app_r by lia.
  replace (length l + 0 - length l) with 0 by lia. simpl.
  by rewrite insert_app_r.
Qed.

Lemma set_last_log (upd : StepRecord → StepRecord) (c : loc) (h h' : Heap)
    (l : list StepRecord) (r : StepRecord) :
  get_steps c h = Some (l ++ [r]) →
  set_last upd c h = Some h' →
  get_steps c h' = Some (l ++ [upd r]) ∧ ∀ c', c ≠ c' → h' !! c' = h !! c'.
Proof.
  intros H. rewrite (set_last_snoc _ _ _ _ _ H). intros [= <-]. split.
  - by eapply get_put_steps.
  - intros c' Hne. by apply put_steps_other.
Qed.

Lemma put_put_steps (c : loc) (h : Heap) (l1 l2 : list StepRecord) :
  put_steps c l2 (put_steps c l1 h) = put_steps c l2 h.
Proof.
  unfold put_steps. destruct (h !! c) as [o|] eqn:Ho.
  - by rewrite lookup_insert_eq, !insert_insert_eq.
  - by rewrite Ho.
Qed.

(** ** One iteration of the loop of [Task.run] *)

Lemma run_catch_snoc (err : Value) (c : loc) (h : Heap)
    (l : list StepRecord) (r : StepRecord) :
  get_steps c h = Some (l ++ [r]) →
  run_catch err c h =
    (put_steps c (l ++ [set_error err (set_status failure r)]) h,
     Throw (rethrown err c)).
Proof.
  intros H. unfold run_catch.
  rewrite (set_last_snoc _ _ _ _ _ H).
  rewrite (set_last_snoc _ _ _ l (set_status failure r))
    by (by eapply get_put_steps).
  by rewrite put_put_steps.
Qed.

Lemma run_steps_cons_return (step : Step) (rest : list Step) (v out : Value)
    (c : loc) (h h2 : Heap) (l : list StepRecord) (r : StepRecord) :
  keeps_log (step_fn step) →
  get_steps c h = Some (l ++ [r]) →
  step_fn step v c (put_steps c (l ++ [set_input v r]) h) = (h2, Return out) →
  run_steps (step :: rest) v c h =
    run_steps rest out c
      (put_steps c
         (l ++ [set_output out (set_status success (set_input v r))]) h2).
Proof.
  intros Hk H Hs. simpl.
  rewrite (set_last_snoc _ _ _ _ _ H), Hs.
  assert (get_steps c h2 = Some (l ++ [set_input v r])) as H2.
  { specialize (Hk v c (put_steps c (l ++ [set_input v r]) h)).
    rewrite Hs in Hk. simpl in Hk. rewrite Hk. by eapply get_put_steps. }
  rewrite (set_last_snoc _ _ _ _ _ H2).
  rewrite (set_last_snoc _ _ _ l (set_status success (set_input v r)))
    by (by eapply get_put_steps).
  by rewrite put_put_steps.
Qed.

Lemma run_steps_cons_throw (step : Step) (rest : list Step) (v err : Value)
    (c : loc) (h h2 : Heap) (l : list StepRecord) (r : StepRecord) :
  keeps_log (step_fn step) →
  get_steps c h = Some (l ++ [r]) →
  step_fn step v c (put_steps c (l ++ [set_input v r]) h) = (h2, Throw err) →
  run_steps (step :: rest) v c h =
    (put_steps c
       (l ++ [set_error err (set_status failure (set_input v r))]) h2,
     Throw (rethrown err c)).
Proof.
  intros Hk H Hs. simpl.
  rewrite (set_last_snoc _ _ _ _ _ H), Hs.
  apply run_catch_snoc.
  specialize (Hk v c (put_steps c (l ++ [set_input v r]) h)).
  rewrite Hs in Hk. simpl in Hk. rewrite Hk. by eapply get_put_steps.
Qed.

(** Running [pre ++ rest] is running [pre] and, when it returns, [rest]. *)
Lemma run_steps_app (pre rest : list Step) (v : Value) (c : loc) (h : Heap) :
  run_steps (pre ++ rest) v c h =
    match run_steps pre v c h with
    | (h1, Return out) => run_steps rest out c h1
    | (h1, Throw e) => (h1, Throw e)
    end.
Proof.
  revert v h. induction pre as [|step pre IH]; intros v h; simpl.
  - done.
  - unfold run_catch.
    repeat (case_match; simplify_eq; try done).
Qed.

(** ** The log after the loop *)

(** What the loop leaves in the log: it only ever rewrites the last record,
    which ends [success] with the returned output, or [failure] with the
    error a step raised. *)
Lemma run_steps_log (steps : list Step) (v : Value) (c : loc) (h h' : Heap)
    (l : list StepRecord) (r : StepRecord) (res : Completion Value) :
  Forall (λ s, keeps_log (step_fn s)) steps →
  get_steps c h = Some (l ++ [r]) →
  run_steps steps v c h = (h', res) →
  ∃ r', get_steps c h' = Some (l ++ [r']) ∧ name r' = name r ∧
    match res with
    | Return out =>
        (steps = [] ∧ r' = r ∧ out = v) ∨
        (steps ≠ [] ∧ status r' = success ∧ output r' = Some out)
    | Throw e =>
        status r' = failure ∧
        ∃ err, error r' = Some err ∧ e = rethrown err c
    end.
Proof.
  intros Hk. revert v h r.
  induction Hk as [|step rest Hstep Hrest IH]; intros v h r Hlog Hrun.
  - simpl in Hrun. simplify_eq. exists r. naive_solver.
  - destruct (step_fn step v c (put_steps c (l ++ [set_input v r]) h))
      as [h2 [out|err]] eqn:Hs.
    + rewrite (run_steps_cons_return _ _ _ _ _ _ _ _ _ Hstep Hlog Hs) in Hrun.
      assert (get_steps c h2 = Some (l ++ [set_input v r])) as H2.
      { specialize (Hstep v c (put_steps c (l ++ [set_input v r]) h)).
        rewrite Hs in Hstep. simpl in Hstep. rewrite Hstep.
        by eapply get_put_steps. }
      eapply IH in Hrun; [|by eapply get_put_steps].
      destruct Hrun as (r' & Hr' & Hn & Hres).
      exists r'. split; [done|]. split; [done|].
      destruct res as [out'|e]; [|done].
      right. destruct Hres as [(-> & -> & ->)|(? & ? & ?)]; naive_solver.
    + rewrite (run_steps_cons_throw _ _ _ _ _ _ _ _ _ Hstep Hlog Hs) in Hrun.
      assert (get_steps c h2 = Some (l ++ [set_input v r])) as H2.
      { specialize (Hstep v c (put_steps c (l ++ [set_input v r]) h)).
        rewrite Hs in Hstep. simpl in Hstep. rewrite Hstep.
        by eapply get_put_steps. }
      simplify_eq. eexists. split; [by eapply get_put_steps|].
      simpl. naive_solver.
Qed.

(** The records [Task.run] pushes: all but the last stay as pushed. *)
Lemma pending_records_snoc (steps : list Step) (s : Step) :
  map pending_record (steps ++ [s]) =
    map pending_record steps ++ [pending_record s].
Proof. by rewrite map_app. Qed.

(** [Task.run] on a context with a log: the log grows by one record per
    step, every record but the last is still as pushed ([pending]), and the
    last one carries the outcome. *)
Lemma Task_run_log (t : Task) (init : list Step) (s : Step) (v : Value)
    (c : loc) (h h' : Heap) (l0 : list StepRecord) (res : Completion Value) :
  task_steps t = init ++ [s] →
  Forall (λ s, keeps_log (step_fn s)) (task_steps t) →
  get_steps c h = Some l0 →
  Task_run t v c h = (h', res) →
  ∃ r', get_steps c h' = Some (l0 ++ map pending_record init ++ [r']) ∧
    name r' = step_name s ∧
    match res with
    | Return out => status r' = success ∧ output r' = Some out
    | Throw e =>
        status r' = failure ∧
        ∃ err, error r' = Some err ∧ e = rethrown err c
    end.
Proof.
  intros Hsteps Hk Hlog Hrun. unfold Task_run in Hrun.
  rewrite (push_steps_Some _ _ _ _ Hlog) in Hrun.
  rewrite Hsteps, pending_records_snoc, app_assoc in Hrun.
  eapply run_steps_log in Hrun;
    [|by rewrite <- Hsteps|by eapply get_put_steps].
  destruct Hrun as (r' & Hr' & Hn & Hres).
  exists r'. rewrite app_assoc. split; [done|]. split; [done|].
  destruct res; [|done].
  destruct Hres as [(Hnil & _)|(_ & ? & ?)]; [|done].
  by destruct init.
Qed.

(** A task without steps leaves the store as it is. *)
Lemma Task_run_nil (t : Task) (v : Value) (c : loc) (h : Heap)
    (l0 : list StepRecord) :
  task_steps t = [] →
  get_steps c h = Some l0 →
  Task_run t v c h = (h, Return v).
Proof.
  intros Hsteps Hlog. unfold Task_run.
  rewrite (push_steps_Some _ _ _ _ Hlog), Hsteps. simpl.
  by rewrite app_nil_r, (put_steps_id _ _ _ Hlog).
Qed.

(** All the records of a task are in the log, [pending] and in step order,
    before its first step is called. *)
Lemma Task_run_pushes_first (t : Task) (v : Value) (c : loc) (h : Heap)
    (l0 : list StepRecord) :
  get_steps c h = Some l0 →
  Task_run t v c h =
    run_steps (task_steps t) v c
      (put_steps c (l0 ++ map pending_record (task_steps t)) h) ∧
  get_steps c (put_steps c (l0 ++ map pending_record (task_steps t)) h) =
    Some (l0 ++ map pending_record (task_steps t)) ∧
  Forall (λ r, status r = pending) (map pending_record (task_steps t)).
Proof.
  intros Hlog. split; [|split].
  - unfold Task_run. by rewrite (push_steps_Some _ _ _ _ Hlog).
  - by eapply get_put_steps.
  - apply Forall_fmap. by apply Forall_true.
Qed.

Lemma set_last_Some_inv (upd : StepRecord → StepRecord) (c : loc)
    (h h' : Heap) :
  set_last upd c h = Some h' →
  ∃ l r, get_steps c h = Some (l ++ [r]) ∧
         h' = put_steps c (l ++ [upd r]) h.
Proof.
  unfold set_last. destruct (get_steps c h) as [l|] eqn:Hl; [|done].
  destruct l as [|r0 l0] using rev_ind; [done|]. clear IHl0.
  intros Hs. exists l0, r0. split; [done|].
  pose proof (set_last_snoc upd c h l0 r0 Hl) as Hsn.
  unfold set_last in Hsn. rewrite Hl in Hsn. congruence.
Qed.

Lemma filter_failure_pending (steps : list Step) :
  filter (λ r, status r = failure) (map pending_record steps) = [].
Proof. induction steps as [|s steps IH]; [done|]. simpl. by rewrite filter_cons_False. Qed.

(** ** Task.run: outcome of a run *)

(** C1 (as the code behaves).  The task of the spec's scenario,
    [[x => "a:"+x, y => y+":b"]] run on ["1"] with a context [{ steps: [] }],
    returns ["a:1:b"] and leaves two records, but only the second ends
    [success]: every write of the loop goes to the last record of the log,
    so the first record is still [pending], without input or output, and
    the second holds the input of the second step. *)
Theorem C1_first_record_stays_pending :
  let r := Task_run task_ab (VString "1") 0 heap0 in
  r.2 = Return (VString "a:1:b") ∧
  get_steps 0 r.1 =
    Some [mkStepRecord "" pending None None None;
          mkStepRecord "" success (Some (VString "a:1"))
            (Some (VString "a:1:b")) None].
Proof. vm_compute. done. Qed.

(** C3 (as the code behaves).  The two records are pushed [pending] before
    the first step runs, but the record of the first step is not finalized
    before the second step begins: a second step that reads
    [context.steps[0].status] sees ["pending"], and the record is still
    [pending] when the task has returned. *)
Theorem C3_first_record_not_finalized :
  let r := Task_run task_probe (VString "1") 0 heap0 in
  r.2 = Return (VString "pending") ∧
  (status <$> (get_steps 0 r.1 ≫= (.!! 0))) = Some pending.
Proof. vm_compute. done. Qed.

(** When a step raises, the run ends in the [catch] block at once: the
    store is the one the step left, but for the last record. *)
Lemma Task_run_raises (t : Task) (pre : list Step) (s : Step)
    (input : Value) (c : loc) (h : Heap) (err : Value) (h2 : Heap) :
  keeps_log (step_fn s) →
  raises_at t pre s input c h err h2 →
  ∃ l r,
    get_steps c h2 = Some (l ++ [r]) ∧
    Task_run t input c h =
      (put_steps c (l ++ [set_error err (set_status failure r)]) h2,
       Throw (rethrown err c)).
Proof.
  intros Hk (post & hp & h1 & v & h1' & Hsteps & Hpush & Hpre & Hin & Hs).
  apply set_last_Some_inv in Hin as (l & r1 & Hl1 & ->).
  exists l, (set_input v r1). split.
  - specialize (Hk v c (put_steps c (l ++ [set_input v r1]) h1)).
    rewrite Hs in Hk. simpl in Hk. rewrite Hk. by eapply get_put_steps.
  - unfold Task_run. rewrite Hpush, Hsteps, run_steps_app, Hpre.
    by apply run_steps_cons_throw.
Qed.

(** What the [catch] block does when a step raises [err]: the LAST record
    of the log, which need not be the record of the step that raised, is
    marked [failure] and [err] is recorded on it; nothing else changes in
    the store the step left, so no further step runs; and [Task.run] throws
    [err] itself when it is a [TaskError], and otherwise a [TaskError] with
    code ["FALL_THROUGH"], the context and [[err]]. *)
Lemma Task_run_step_failure (t : Task) (pre : list Step) (s : Step)
    (input : Value) (c : loc) (h : Heap) (err : Value) (h2 : Heap) :
  keeps_log (step_fn s) →
  raises_at t pre s input c h err h2 →
  ∃ h' l r',
    Task_run t input c h = (h', Throw (rethrown err c)) ∧
    h' = put_steps c (l ++ [r']) h2 ∧
    get_steps c h' = Some (l ++ [r']) ∧
    status r' = failure ∧ error r' = Some err ∧
    (instanceof_TaskError err = true → rethrown err c = err) ∧
    (instanceof_TaskError err = false →
       rethrown err c = VTaskError "FALL_THROUGH" c [err] "Task failed").
Proof.
  intros Hk Hr.
  destruct (Task_run_raises _ _ _ _ _ _ _ _ Hk Hr) as (l & r & Hl & Hrun).
  eexists _, l, _. split; [exact Hrun|]. split; [done|].
  split; [by eapply get_put_steps|]. split; [done|]. split; [done|].
  unfold rethrown. split; intros ->; done.
Qed.

Lemma task_boom_raises :
  ∃ h2, raises_at task_boom [concat_step "a:" ""] (throw_step "boom")
          (VString "1") 0 heap0 (VError "boom") h2.
Proof.
  unfold raises_at.
  eexists _, [concat_step "" ":c"], _, _, _, _.
  split; [reflexivity|]. split; [reflexivity|].
  split; [reflexivity|]. split; [reflexivity|]. reflexivity.
Defined.

Lemma Task_run_step_failure_example :
  ∃ h2,
    raises_at task_boom [concat_step "a:" ""] (throw_step "boom")
      (VString "1") 0 heap0 (VError "boom") h2 ∧
    ∃ h' l r',
      Task_run task_boom (VString "1") 0 heap0 =
        (h', Throw (rethrown (VError "boom") 0)) ∧
      h' = put_steps 0 (l ++ [r']) h2 ∧
      get_steps 0 h' = Some (l ++ [r']) ∧
      status r' = failure ∧ error r' = Some (VError "boom") ∧
      (instanceof_TaskError (VError "boom") = true →
         rethrown (VError "boom") 0 = VError "boom") ∧
      (instanceof_TaskError (VError "boom") = false →
         rethrown (VError "boom") 0 =
           VTaskError "FALL_THROUGH" 0 [VError "boom"] "Task failed").
Proof.
  destruct task_boom_raises as [h2 H]. exists h2. split; [exact H|].
  apply (Task_run_step_failure task_boom [concat_step "a:" ""]
           (throw_step "boom") (VString "1") 0 heap0 (VError "boom") h2).
  - intros v c h. reflexivity.
  - exact H.
Defined.

(** C4 (as the code behaves).  When step 2 of 3 raises [Error("boom")],
    [Task.run] throws the [TaskError] with code ["FALL_THROUGH"], the
    context and [[Error("boom")]], and step 3 does not run; but the record
    of the step that raised, [context.steps[1]], is left [pending] with no
    error on it: [failure] and the error are written to the last record of
    the log, [context.steps[2]], which is the record of step 3 and also
    holds the output written after step 1 and the input given to step 2. *)
Theorem C4_failure_marked_on_last_record :
  let r := Task_run task_boom (VString "1") 0 heap0 in
  r.2 = Throw (VTaskError "FALL_THROUGH" 0 [VError "boom"] "Task failed") ∧
  get_steps 0 r.1 =
    Some [mkStepRecord "" pending None None None;
          mkStepRecord "" pending None None None;
          mkStepRecord "" failure (Some (VString "a:1"))
            (Some (VString "a:1")) (Some (VError "boom"))].
Proof. vm_compute. done. Qed.

(** C2, the scenario as stated.  When step 2 of 3 throws [Error("boom")]
    the statement has [context.steps[1].status === "failure"] and no
    [context.steps[2]]; the run leaves three records, the second of them
    not [failure]. *)
Lemma C2_counterexample :
  ∃ l,
    get_steps 0 (Task_run task_boom (VString "1") 0 heap0).1 = Some l ∧
    (status <$> l !! 1) ≠ Some failure ∧
    l !! 2 ≠ None.
Proof. eexists. split; [vm_compute; reflexivity|]. by split. Qed.

(** C2, amended.  When step [k] of the [N] steps of a task raises [err]
    (the steps keeping to their contract), [Task.run] throws, for [err] not
    a [TaskError], a [TaskError] whose errors are [[err]]; the log has
    grown by [N] records, those of the steps after [k] included; exactly
    one of the [N] ends [failure]; and none at the positions [k..N] ends
    [success]. *)
Theorem C2_failure_leaves_one_failure_record (t : Task) (pre : list Step)
    (s : Step) (input : Value) (c : loc) (h : Heap) (l0 : list StepRecord)
    (err : Value) (h2 : Heap) :
  Forall (λ s, keeps_log (step_fn s)) (task_steps t) →
  get_steps c h = Some l0 →
  raises_at t pre s input c h err h2 →
  ∃ h' recs,
    Task_run t input c h = (h', Throw (rethrown err c)) ∧
    (instanceof_TaskError err = false →
       rethrown err c = VTaskError "FALL_THROUGH" c [err] "Task failed") ∧
    get_steps c h' = Some (l0 ++ recs) ∧
    length recs = length (task_steps t) ∧
    length (filter (λ r, status r = failure) recs) = 1 ∧
    ∀ i r, length pre ≤ i → recs !! i = Some r → status r ≠ success.
Proof.
  intros Hk Hlog Hr.
  assert (keeps_log (step_fn s)) as Hs.
  { destruct Hr as (post & _ & _ & _ & _ & Hsteps & _).
    rewrite Hsteps in Hk. apply Forall_app in Hk as [_ Hk].
    by apply Forall_cons in Hk as [Hk _]. }
  destruct (Task_run_raises _ _ _ _ _ _ _ _ Hs Hr) as (l & r & _ & Hrun).
  assert (∃ init z, task_steps t = init ++ [z]) as (init & z & Hsteps).
  { destruct Hr as (post & _ & _ & _ & _ & Hsteps & _). rewrite Hsteps.
    destruct post as [|z post _] using rev_ind.
    - by exists pre, s.
    - exists (pre ++ s :: post), z. by rewrite <- app_assoc. }
  destruct (Task_run_log _ _ _ _ _ _ _ _ _ Hsteps Hk Hlog Hrun)
    as (r' & Hlog' & _ & Hfail & _).
  eexists _, (map pending_record init ++ [r']).
  split; [exact Hrun|]. split.
  { unfold rethrown. by intros ->. }
  split; [done|]. split.
  { rewrite Hsteps, !length_app, length_map. done. }
  split.
  { rewrite filter_app, filter_failure_pending. simpl.
    by rewrite filter_cons_True, filter_nil. }
  intros i r0 _ Hi. apply list_elem_of_lookup_2 in Hi.
  apply elem_of_app in Hi as [Hi|Hi].
  - apply list_elem_of_fmap in Hi as (s0 & -> & _). done.
  - apply list_elem_of_singleton in Hi as ->. by rewrite Hfail.
Qed.

Lemma C2_witness :
  ∃ h2,
    raises_at task_boom [concat_step "a:" ""] (throw_step "boom")
      (VString "1") 0 heap0 (VError "boom") h2 ∧
    ∃ h' recs,
      Task_run task_boom (VString "1") 0 heap0 =
        (h', Throw (rethrown (VError "boom") 0)) ∧
      (instanceof_TaskError (VError "boom") = false →
         rethrown (VError "boom") 0 =
           VTaskError "FALL_THROUGH" 0 [VError "boom"] "Task failed") ∧
      get_steps 0 h' = Some ([] ++ recs) ∧
      length recs = length (task_steps task_boom) ∧
      length (filter (λ r, status r = failure) recs) = 1 ∧
      ∀ i r, length [concat_step "a:" ""] ≤ i →
             recs !! i = Some r → status r ≠ success.
Proof.
  destruct task_boom_raises as [h2 H]. exists h2. split; [exact H|].
  apply (C2_failure_leaves_one_failure_record task_boom
           [concat_step "a:" ""] (throw_step "boom") (VString "1") 0 heap0
           [] (VError "boom") h2).
  - repeat constructor; intros v c h; simpl; by destruct v.
  - reflexivity.
  - exact H.
Defined.

Lemma snoc_of_nonempty {A} (l : list A) :
  l ≠ [] → ∃ l' x, l = l' ++ [x].
Proof. destruct l as [|x l' _] using rev_ind; [done|]. eauto. Qed.

Lemma keeps_log_pure (name : string) (f : Value → Value) :
  keeps_log (step_fn (pure_step name f)).
Proof. by intros v c h. Qed.

(** The loop over steps that only compute is the left fold of their
    functions over the input. *)
Lemma run_steps_pure (nfs : list (string * (Value → Value))) (v : Value)
    (c : loc) (h : Heap) (l : list StepRecord) (r : StepRecord) :
  get_steps c h = Some (l ++ [r]) →
  (run_steps (map (λ nf, pure_step nf.1 nf.2) nfs) v c h).2 =
    Return (fold_left (λ x nf, nf.2 x) nfs v).
Proof.
  revert v h r. induction nfs as [|[n f] nfs IH]; intros v h r Hlog; [done|].
  simpl map.
  rewrite (run_steps_cons_return (pure_step n f) _ v (f v) c h _ l r
             (keeps_log_pure n f) Hlog eq_refl).
  simpl fold_left. eapply IH.
  eapply get_put_steps, get_put_steps, Hlog.
Qed.

(** C8.  [Task.run] runs its steps in order: for steps that compute
    [f1, ..., fn], the output is [fn (... (f1 input))], so the first step
    receives the input of the task and each later step the return value of
    the step before it; and the task [[x => "a:"+x, y => y+":b"]] run on
    ["1"] returns ["a:1:b"]. *)
Theorem C8_steps_run_in_order (name : string)
    (nfs : list (string * (Value → Value))) (input : Value) (c : loc)
    (h : Heap) (l0 : list StepRecord) :
  get_steps c h = Some l0 →
  (Task_run (mkTask name (map (λ nf, pure_step nf.1 nf.2) nfs)) input c h).2 =
    Return (fold_left (λ x nf, nf.2 x) nfs input) ∧
  (Task_run task_ab (VString "1") 0 heap0).2 = Return (VString "a:1:b").
Proof.
  intros Hlog. split; [|by vm_compute].
  unfold Task_run. rewrite (push_steps_Some _ _ _ _ Hlog). simpl task_steps.
  destruct nfs as [|nf nfs]; [done|].
  destruct (snoc_of_nonempty
              (l0 ++ map pending_record
                       (map (λ nf, pure_step nf.1 nf.2) (nf :: nfs))))
    as (l & r & Hl); [by destruct l0|].
  rewrite Hl. eapply run_steps_pure. by eapply get_put_steps.
Qed.

Lemma C8_witness :
  get_steps 0 heap0 = Some [] ∧
  (Task_run
     (mkTask "t" (map (λ nf, pure_step nf.1 nf.2)
                    [("inc", λ x, match x with VNumber z => VNumber (z + 1) | _ => x end);
                     ("dbl", λ x, match x with VNumber z => VNumber (2 * z) | _ => x end)]))
     (VNumber 3) 0 heap0).2 =
    Return (fold_left (λ x nf, nf.2 x)
              [("inc", λ x, match x with VNumber z => VNumber (z + 1) | _ => x end);
               ("dbl", λ x, match x with VNumber z => VNumber (2 * z) | _ => x end)]
              (VNumber 3)) ∧
  (Task_run task_ab (VString "1") 0 heap0).2 = Return (VString "a:1:b").
Proof.
  split; [reflexivity|].
  apply (C8_steps_run_in_order "t" _ (VNumber 3) 0 heap0 []). reflexivity.
Defined.

(** C10.  A task may be constructed with [steps] omitted or empty (the
    constructor has no failure path), it then has no step, and run on a
    context that has a step log it returns its input and leaves the store,
    the log included, as it was. *)
Theorem C10_task_without_steps (name : string) (input : Value) (c : loc)
    (h : Heap) (l0 : list StepRecord) :
  get_steps c h = Some l0 →
  task_steps (Task_new name None) = [] ∧
  task_steps (Task_new name (Some [])) = [] ∧
  Task_run (Task_new name None) input c h = (h, Return input) ∧
  Task_run (Task_new name (Some [])) input c h = (h, Return input).
Proof.
  intros Hlog. split; [done|]. split; [done|].
  split; by eapply Task_run_nil.
Qed.

Lemma C10_witness :
  get_steps 0 heap0 = Some [] ∧
  task_steps (Task_new "t" None) = [] ∧
  task_steps (Task_new "t" (Some [])) = [] ∧
  Task_run (Task_new "t" None) (VString "x") 0 heap0 =
    (heap0, Return (VString "x")) ∧
  Task_run (Task_new "t" (Some [])) (VString "x") 0 heap0 =
    (heap0, Return (VString "x")).
Proof.
  split; [reflexivity|].
  apply (C10_task_without_steps "t" (VString "x") 0 heap0 []). reflexivity.
Defined.

(** ** Pipeline.run: the loop over configurations *)

Lemma pipeline_catch_throws (ctx : loc) (h : Heap) :
  ∃ e, pipeline_catch ctx h = (h, Throw e).
Proof. unfold pipeline_catch. destruct (get_steps ctx h); eauto. Qed.

(** Running [pre ++ rest] is running [pre] and, when it returns, [rest]
    on its output. *)
Lemma run_tasks_app (pre rest : list PipelineConfiguration) (v : Value)
    (ctx : loc) (h : Heap) :
  run_tasks (pre ++ rest) v ctx h =
    match run_tasks pre v ctx h with
    | (h1, Return po) => run_tasks rest (po_output po) ctx h1
    | (h1, Throw e) => (h1, Throw e)
    end.
Proof.
  revert v h. induction pre as [|cfg pre IH]; intros v h; simpl; [done|].
  destruct (run_configuration cfg v ctx h) as [h1 [out|e]]; [apply IH|].
  by destruct (pipeline_catch_throws ctx h1) as [e' ->].
Qed.

Lemma run_tasks_context (tasks : list PipelineConfiguration) (v : Value)
    (ctx : loc) (h h' : Heap) (po : PipelineOutput) :
  run_tasks tasks v ctx h = (h', Return po) → po_context po = ctx.
Proof.
  revert v h. induction tasks as [|cfg tasks IH]; intros v h; simpl.
  - by intros [= _ <-].
  - destruct (run_configuration cfg v ctx h) as [h1 [out|e]]; [apply IH|].
    by destruct (pipeline_catch_throws ctx h1) as [e' ->].
Qed.

(** C5.  When the configuration after [pre] throws (its selector or its
    task), whatever [e] it throws, [Pipeline.run] ends there: the store is
    the one that configuration left, so no later configuration ran and no
    later task's records are in the log; and it throws a [PipelineError]
    whose errors are the [error] fields of the records of the whole log
    whose status is [failure], in order, and whose context is the shared
    context the pipeline created. *)
Theorem C5_failing_task_aborts_pipeline (p : Pipeline)
    (pre post : list PipelineConfiguration) (cfg : PipelineConfiguration)
    (input : Value) (context : loc) (h h1 h2 : Heap) (prevOutput e : Value)
    (l : list StepRecord) :
  pipeline_tasks p = pre ++ cfg :: post →
  run_tasks pre input (new_loc h)
    (<[new_loc h := spread (deref context h) baseContext]> h) =
    (h1, Return (mkPipelineOutput prevOutput (new_loc h))) →
  run_configuration cfg prevOutput (new_loc h) h1 = (h2, Throw e) →
  get_steps (new_loc h) h2 = Some l →
  Pipeline_run p input context h =
    (h2, Throw (VPipelineError
                  (map (λ step, default VUndefined (error step))
                     (filter (λ step, status step = failure) l))
                  (new_loc h) "Pipeline failed")).
Proof.
  intros Htasks Hpre Hcfg Hl. unfold Pipeline_run.
  rewrite Htasks, run_tasks_app, Hpre. simpl.
  rewrite Hcfg. unfold pipeline_catch. by rewrite Hl.
Qed.

Lemma C5_witness :
  ∃ h1 h2 l,
    pipeline_tasks pipeline_abort =
      [BareTask task_ab] ++ BareTask task_boom :: [BareTask task_ab] ∧
    run_tasks [BareTask task_ab] (VString "1") (new_loc heap0)
      (<[new_loc heap0 := spread (deref 0 heap0) baseContext]> heap0) =
      (h1, Return (mkPipelineOutput (VString "a:1:b") (new_loc heap0))) ∧
    run_configuration (BareTask task_boom) (VString "a:1:b") (new_loc heap0) h1 =
      (h2, Throw (VTaskError "FALL_THROUGH" 1 [VError "boom"] "Task failed")) ∧
    get_steps (new_loc heap0) h2 = Some l ∧
    Pipeline_run pipeline_abort (VString "1") 0 heap0 =
      (h2, Throw (VPipelineError
                    (map (λ step, default VUndefined (error step))
                       (filter (λ step, status step = failure) l))
                    (new_loc heap0) "Pipeline failed")).
Proof.
  eexists _, _, _.
  split; [reflexivity|].
  split; [reflexivity|].
  split; [reflexivity|].
  split; [reflexivity|].
  eapply (C5_failing_task_aborts_pipeline pipeline_abort
            [BareTask task_ab] [BareTask task_ab] (BareTask task_boom)
            (VString "1") 0 heap0);
    [reflexivity|reflexivity|reflexivity
    |reflexivity].
Defined.

(** C7.  In a pipeline whose configurations [pre] have returned with the
    accumulated output [prevOutput], the next configuration's task is run
    on [s(prevOutput, ctx)] when the configuration has the selector [s],
    and on [prevOutput] itself when it is a bare task or an entry without
    a selector. *)
Theorem C7_selector_decides_task_input
    (pre post : list PipelineConfiguration) (t : Task)
    (input prevOutput : Value) (ctx : loc) (h0 h1 : Heap) :
  run_tasks pre input ctx h0 = (h1, Return (mkPipelineOutput prevOutput ctx)) →
  (∀ (s : Fn) (h2 : Heap) (v : Value),
     s prevOutput ctx h1 = (h2, Return v) →
     run_tasks (pre ++ Entry (Selector s) t :: post) input ctx h0 =
       match Task_run t v ctx h2 with
       | (h3, Return taskOutput) => run_tasks post taskOutput ctx h3
       | (h3, Throw _) => pipeline_catch ctx h3
       end) ∧
  run_tasks (pre ++ BareTask t :: post) input ctx h0 =
    match Task_run t prevOutput ctx h1 with
    | (h3, Return taskOutput) => run_tasks post taskOutput ctx h3
    | (h3, Throw _) => pipeline_catch ctx h3
    end ∧
  run_tasks (pre ++ Entry NoSelector t :: post) input ctx h0 =
    match Task_run t prevOutput ctx h1 with
    | (h3, Return taskOutput) => run_tasks post taskOutput ctx h3
    | (h3, Throw _) => pipeline_catch ctx h3
    end.
Proof.
  intros Hpre. split; [|split].
  - intros s h2 v Hs. rewrite run_tasks_app, Hpre. simpl.
    unfold run_configuration. simpl. by rewrite Hs.
  - by rewrite run_tasks_app, Hpre.
  - by rewrite run_tasks_app, Hpre.
Qed.

Lemma C7_witness :
  ∃ h1,
    run_tasks [BareTask task_ab] (VString "1") 1
      (<[1 := baseContext]> heap0) =
      (h1, Return (mkPipelineOutput (VString "a:1:b") 1)) ∧
    ((∀ (s : Fn) (h2 : Heap) (v : Value),
        s (VString "a:1:b") 1 h1 = (h2, Return v) →
        run_tasks ([BareTask task_ab] ++ Entry (Selector s) task_wrap :: [])
          (VString "1") 1 (<[1 := baseContext]> heap0) =
          match Task_run task_wrap v 1 h2 with
          | (h3, Return taskOutput) => run_tasks [] taskOutput 1 h3
          | (h3, Throw _) => pipeline_catch 1 h3
          end) ∧
     run_tasks ([BareTask task_ab] ++ BareTask task_wrap :: [])
       (VString "1") 1 (<[1 := baseContext]> heap0) =
       match Task_run task_wrap (VString "a:1:b") 1 h1 with
       | (h3, Return taskOutput) => run_tasks [] taskOutput 1 h3
       | (h3, Throw _) => pipeline_catch 1 h3
       end ∧
     run_tasks ([BareTask task_ab] ++ Entry NoSelector task_wrap :: [])
       (VString "1") 1 (<[1 := baseContext]> heap0) =
       match Task_run task_wrap (VString "a:1:b") 1 h1 with
       | (h3, Return taskOutput) => run_tasks [] taskOutput 1 h3
       | (h3, Throw _) => pipeline_catch 1 h3
       end).
Proof.
  eexists. split; [reflexivity|].
  apply (C7_selector_decides_task_input [BareTask task_ab] [] task_wrap
           (VString "1") (VString "a:1:b") 1 (<[1 := baseContext]> heap0)).
  reflexivity.
Defined.

(** A selector, a bare task and an entry without selector at work after a
    first task that outputs ["a:1:b"]. *)
Example selector_examples :
  (Pipeline_run (mkPipeline "p" [BareTask task_ab; Entry (Selector bang) task_wrap])
     (VString "1") 0 heap0).2 =
    Return (mkPipelineOutput (VString "<a:1:b!>") 1) ∧
  (Pipeline_run (mkPipeline "p" [BareTask task_ab; BareTask task_wrap])
     (VString "1") 0 heap0).2 =
    Return (mkPipelineOutput (VString "<a:1:b>") 1) ∧
  (Pipeline_run (mkPipeline "p" [BareTask task_ab; Entry NoSelector task_wrap])
     (VString "1") 0 heap0).2 =
    Return (mkPipelineOutput (VString "<a:1:b>") 1).
Proof. vm_compute. done. Qed.

(** ** Pipeline.run: the accumulated log *)

(** Whatever its outcome, [Task.run] appends one record per step, named
    after the steps in order, and leaves the earlier records alone. *)
Lemma Task_run_appends (t : Task) (v : Value) (c : loc) (h h' : Heap)
    (l0 : list StepRecord) (res : Completion Value) :
  Forall (λ s, keeps_log (step_fn s)) (task_steps t) →
  get_steps c h = Some l0 →
  Task_run t v c h = (h', res) →
  ∃ recs, get_steps c h' = Some (l0 ++ recs) ∧
          map name recs = map step_name (task_steps t).
Proof.
  intros Hk Hlog Hrun.
  destruct (task_steps t) as [|s0 steps] eqn:Hsteps.
  - rewrite (Task_run_nil _ _ _ _ _ Hsteps Hlog) in Hrun. simplify_eq.
    exists []. by rewrite app_nil_r.
  - destruct (snoc_of_nonempty (s0 :: steps)) as (init & z & Hsn); [done|].
    rewrite <- Hsteps in Hk. rewrite Hsn in Hsteps.
    destruct (Task_run_log _ _ _ _ _ _ _ _ _ Hsteps Hk Hlog Hrun)
      as (r' & Hlog' & Hname & _).
    exists (map pending_record init ++ [r']). split; [done|].
    rewrite Hsn, !map_app, map_map. simpl. by rewrite Hname.
Qed.

Lemma run_configuration_appends (cfg : PipelineConfiguration) (v : Value)
    (c : loc) (h h' : Heap) (l0 : list StepRecord) (out : Value) :
  config_keeps_log cfg →
  get_steps c h = Some l0 →
  run_configuration cfg v c h = (h', Return out) →
  ∃ recs, get_steps c h' = Some (l0 ++ recs) ∧
          map name recs = map step_name (task_steps (taskFn cfg)).
Proof.
  intros [Hk Hsel] Hlog. unfold run_configuration.
  destruct (taskInput cfg v c h) as [h1 [v1|e]] eqn:Hin; [|done].
  intros Hrun. eapply Task_run_appends; [exact Hk| |exact Hrun].
  destruct cfg as [t|[| |f] t]; simpl in Hin; simplify_eq; try done.
  specialize (Hsel v c h). rewrite Hin in Hsel. simpl in Hsel. congruence.
Qed.

Lemma run_tasks_log (tasks : list PipelineConfiguration) (v : Value)
    (ctx : loc) (h h' : Heap) (l0 : list StepRecord) (po : PipelineOutput) :
  Forall config_keeps_log tasks →
  get_steps ctx h = Some l0 →
  run_tasks tasks v ctx h = (h', Return po) →
  ∃ logs,
    task_runs ctx tasks v h logs h' ∧
    get_steps ctx h' = Some (l0 ++ concat (map fst logs)) ∧
    po_output po = default v (snd <$> last logs).
Proof.
  intros Hk. revert v h l0.
  induction Hk as [|cfg tasks Hcfg _ IH]; intros v h l0 Hlog Hrun.
  - simpl in Hrun. simplify_eq. exists []. split; [constructor|].
    simpl. by rewrite app_nil_r.
  - simpl in Hrun.
    destruct (run_configuration cfg v ctx h) as [h1 [out|e]] eqn:Hc.
    + destruct (run_configuration_appends _ _ _ _ _ _ _ Hcfg Hlog Hc)
        as (recs & Hlog1 & Hnames).
      destruct (IH _ _ _ Hlog1 Hrun) as (logs & Hruns & Hlog' & Hout).
      exists ((recs, out) :: logs). split; [by econstructor|].
      split; [simpl; by rewrite app_assoc|].
      rewrite Hout, last_cons. by destruct (last logs).
    + by destruct (pipeline_catch_throws ctx h1) as [e' He']; rewrite He' in Hrun.
Qed.

(** The object [Pipeline.run] creates has an empty log, whatever the
    caller's object holds. *)
Lemma spread_log (ctx : loc) (o : Obj) (h : Heap) :
  get_steps ctx (<[ctx := spread o baseContext]> h) = Some [].
Proof.
  apply get_steps_Some. eexists. rewrite lookup_insert_eq. split; [done|].
  unfold spread, baseContext.
  by erewrite lookup_union_Some_l; [|apply lookup_singleton_eq].
Qed.

(** C6.  When every configuration of a pipeline returns (its user code
    keeping to the contract), [Pipeline.run] returns [{ output, context }]
    where [context] is the one context the pipeline created, [output] is
    the output of the last task, and the log of that context is the
    concatenation, in order, of the records each task appended, one per
    step of the task. *)
Theorem C6_pipeline_success (p : Pipeline) (input : Value) (context : loc)
    (h h' : Heap) (po : PipelineOutput) :
  Forall config_keeps_log (pipeline_tasks p) →
  Pipeline_run p input context h = (h', Return po) →
  po_context po = new_loc h ∧
  ∃ logs,
    task_runs (new_loc h) (pipeline_tasks p) input
      (<[new_loc h := spread (deref context h) baseContext]> h) logs h' ∧
    length logs = length (pipeline_tasks p) ∧
    po_output po = default input (snd <$> last logs) ∧
    get_steps (po_context po) h' = Some (concat (map fst logs)).
Proof.
  intros Hk Hrun. unfold Pipeline_run in Hrun.
  pose proof (run_tasks_context _ _ _ _ _ _ Hrun) as Hctx.
  split; [done|]. rewrite Hctx.
  destruct (run_tasks_log _ _ _ _ _ [] _ Hk (spread_log _ _ _) Hrun)
    as (logs & Hruns & Hlog & Hout).
  exists logs. split; [done|]. split; [|done].
  clear -Hruns. induction Hruns; simpl; congruence.
Qed.

Lemma keeps_log_concat_step (prefix suffix : string) :
  keeps_log (step_fn (concat_step prefix suffix)).
Proof. intros v c h. by destruct v. Qed.

Lemma pipeline_ok_keeps_log : Forall config_keeps_log (pipeline_tasks pipeline_ok).
Proof.
  repeat constructor; apply keeps_log_concat_step.
Qed.

Lemma C6_witness :
  ∃ h',
    Forall config_keeps_log (pipeline_tasks pipeline_ok) ∧
    Pipeline_run pipeline_ok (VString "1") 0 heap0 =
      (h', Return (mkPipelineOutput (VString "<a:1:b!>") 1)) ∧
    po_context (mkPipelineOutput (VString "<a:1:b!>") 1) = new_loc heap0 ∧
    ∃ logs,
      task_runs (new_loc heap0) (pipeline_tasks pipeline_ok) (VString "1")
        (<[new_loc heap0 := spread (deref 0 heap0) baseContext]> heap0)
        logs h' ∧
      length logs = length (pipeline_tasks pipeline_ok) ∧
      po_output (mkPipelineOutput (VString "<a:1:b!>") 1) =
        default (VString "1") (snd <$> last logs) ∧
      get_steps (po_context (mkPipelineOutput (VString "<a:1:b!>") 1)) h' =
        Some (concat (map fst logs)).
Proof.
  eexists. split; [exact pipeline_ok_keeps_log|]. split; [reflexivity|].
  apply (C6_pipeline_success pipeline_ok (VString "1") 0 heap0).
  - exact pipeline_ok_keeps_log.
  - reflexivity.
Defined.

(** ** Pipeline.run: the caller's context *)

Lemma new_loc_fresh (h : Heap) : h !! new_loc h = None.
Proof. apply (not_elem_of_dom (D := gset loc)). unfold new_loc. apply is_fresh. Qed.

Section other_objects.
(** The run works on the context [c]; [context] is any other object. *)
Variables c context : loc.
Hypothesis Hne : c ≠ context.

Lemma set_last_other (upd : StepRecord → StepRecord) (h h' : Heap) :
  set_last upd c h = Some h' → h' !! context = h !! context.
Proof.
  intros (l & r & _ & ->)%set_last_Some_inv. by apply put_steps_other.
Qed.

Lemma run_catch_other (err : Value) (h : Heap) :
  (run_catch err c h).1 !! context = h !! context.
Proof.
  unfold run_catch.
  destruct (set_last (set_status failure) c h) as [h1|] eqn:H1; [|done].
  destruct (set_last (set_error err) c h1) as [h2|] eqn:H2; simpl.
  - rewrite (set_last_other _ _ _ H2). apply (set_last_other _ _ _ H1).
  - apply (set_last_other _ _ _ H1).
Qed.

Lemma run_steps_other (steps : list Step) (v : Value) (h : Heap) :
  Forall (λ s, leaves context (step_fn s)) steps →
  (run_steps steps v c h).1 !! context = h !! context.
Proof.
  intros Hk. revert v h.
  induction Hk as [|step rest Hstep _ IH]; intros v h; simpl; [done|].
  destruct (set_last (set_input v) c h) as [h1|] eqn:H1; [|done].
  pose proof (Hstep v c h1 Hne) as Hf.
  destruct (step_fn step v c h1) as [h2 [out|err]]; simpl in Hf.
  - destruct (set_last (set_status success) c h2) as [h3|] eqn:H3.
    + destruct (set_last (set_output out) c h3) as [h4|] eqn:H4.
      * rewrite IH, (set_last_other _ _ _ H4), (set_last_other _ _ _ H3), Hf.
        apply (set_last_other _ _ _ H1).
      * rewrite run_catch_other, (set_last_other _ _ _ H3), Hf.
        apply (set_last_other _ _ _ H1).
    + rewrite run_catch_other, Hf. apply (set_last_other _ _ _ H1).
  - rewrite run_catch_other, Hf. apply (set_last_other _ _ _ H1).
Qed.

Lemma Task_run_other (t : Task) (v : Value) (h : Heap) :
  Forall (λ s, leaves context (step_fn s)) (task_steps t) →
  (Task_run t v c h).1 !! context = h !! context.
Proof.
  intros Hk. unfold Task_run, push_steps.
  destruct (get_steps c h) as [l|]; [|done].
  rewrite (run_steps_other _ _ _ Hk). by apply put_steps_other.
Qed.

Lemma run_configuration_other (cfg : PipelineConfiguration) (v : Value)
    (h : Heap) :
  config_leaves context cfg →
  (run_configuration cfg v c h).1 !! context = h !! context.
Proof.
  intros [Hk Hsel]. unfold run_configuration.
  assert ((taskInput cfg v c h).1 !! context = h !! context) as Hin.
  { destruct cfg as [t|[| |f] t]; simpl; try done. by apply Hsel. }
  destruct (taskInput cfg v c h) as [h1 [v1|e]]; simpl in Hin; [|done].
  by rewrite (Task_run_other _ _ _ Hk).
Qed.

Lemma run_tasks_other (tasks : list PipelineConfiguration) (v : Value)
    (h : Heap) :
  Forall (config_leaves context) tasks →
  (run_tasks tasks v c h).1 !! context = h !! context.
Proof.
  intros Hk. revert v h.
  induction Hk as [|cfg tasks Hcfg _ IH]; intros v h; simpl; [done|].
  pose proof (run_configuration_other _ v h Hcfg) as Hc.
  destruct (run_configuration cfg v c h) as [h1 [out|e]]; simpl in Hc.
  - by rewrite IH.
  - by destruct (pipeline_catch_throws c h1) as [e' ->].
Qed.
End other_objects.

Lemma spread_baseContext (o : Obj) :
  spread o baseContext = <["steps" := PSteps []]> o.
Proof. unfold spread, baseContext. by rewrite insert_union_singleton_l. Qed.

Lemma run_tasks_throws (tasks : list PipelineConfiguration) (v : Value)
    (ctx : loc) (h h' : Heap) (e : Value) :
  run_tasks tasks v ctx h = (h', Throw e) →
  e = undefined_access ∨ ∃ errors, e = PipelineError errors ctx.
Proof.
  revert v h. induction tasks as [|cfg tasks IH]; intros v h; simpl; [done|].
  destruct (run_configuration cfg v ctx h) as [h1 [out|e1]]; [apply IH|].
  unfold pipeline_catch. destruct (get_steps ctx h1); intros [= _ <-]; eauto.
Qed.

(** C9.  [Pipeline.run] does not write to the object its caller passes as
    context: it creates a new object, made of the caller's properties with
    [steps] set to a new empty array (so a [steps] property of the caller's
    object is not used), and runs every task on that object; provided the
    user code does not itself write to the caller's object, that object is
    the same after the run, and the context returned on success or carried
    by the [PipelineError] is the new object. *)
Theorem C9_caller_context_untouched (p : Pipeline) (input : Value)
    (context : loc) (h : Heap) (o : Obj) :
  h !! context = Some o →
  Forall (config_leaves context) (pipeline_tasks p) →
  new_loc h ≠ context ∧
  h !! new_loc h = None ∧
  Pipeline_run p input context h =
    run_tasks (pipeline_tasks p) input (new_loc h)
      (<[new_loc h := <["steps" := PSteps []]> o]> h) ∧
  (∀ x, <["steps" := PSteps []]> (<["steps" := x]> o) =
        <["steps" := PSteps []]> o) ∧
  (Pipeline_run p input context h).1 !! context = Some o ∧
  match (Pipeline_run p input context h).2 with
  | Return po => po_context po = new_loc h
  | Throw (VPipelineError _ c _) => c = new_loc h
  | Throw _ => True
  end.
Proof.
  intros Ho Hk.
  assert (new_loc h ≠ context) as Hne.
  { intros Heq. pose proof (new_loc_fresh h) as Hf. congruence. }
  split; [done|]. split; [apply new_loc_fresh|].
  assert (Pipeline_run p input context h =
            run_tasks (pipeline_tasks p) input (new_loc h)
              (<[new_loc h := <["steps" := PSteps []]> o]> h)) as Hrun.
  { unfold Pipeline_run, deref. rewrite Ho. simpl.
    by rewrite spread_baseContext. }
  split; [done|]. split; [intros x; apply insert_insert_eq|]. split.
  - rewrite Hrun, (run_tasks_other _ _ Hne _ _ _ Hk).
    by rewrite lookup_insert_ne.
  - rewrite Hrun.
    destruct (run_tasks _ _ _ _) as [h' [po|e]] eqn:Hr; simpl.
    + by eapply run_tasks_context.
    + apply run_tasks_throws in Hr as [->|[errors ->]]; done.
Qed.

Lemma leaves_concat_step (context : loc) (prefix suffix : string) :
  leaves context (step_fn (concat_step prefix suffix)).
Proof. intros v c h _. by destruct v. Qed.

Lemma C9_witness :
  heap0 !! 0 = Some baseContext ∧
  Forall (config_leaves 0) (pipeline_tasks pipeline_abort) ∧
  new_loc heap0 ≠ 0 ∧
  heap0 !! new_loc heap0 = None ∧
  Pipeline_run pipeline_abort (VString "1") 0 heap0 =
    run_tasks (pipeline_tasks pipeline_abort) (VString "1") (new_loc heap0)
      (<[new_loc heap0 := <["steps" := PSteps []]> baseContext]> heap0) ∧
  (∀ x, <["steps" := PSteps []]> (<["steps" := x]> baseContext) =
        <["steps" := PSteps []]> baseContext) ∧
  (Pipeline_run pipeline_abort (VString "1") 0 heap0).1 !! 0 =
    Some baseContext ∧
  match (Pipeline_run pipeline_abort (VString "1") 0 heap0).2 with
  | Return po => po_context po = new_loc heap0
  | Throw (VPipelineError _ c _) => c = new_loc heap0
  | Throw _ => True
  end.
Proof.
  assert (Forall (config_leaves 0) (pipeline_tasks pipeline_abort)) as Hk.
  { repeat constructor; try apply leaves_concat_step. }
  split; [reflexivity|]. split; [exact Hk|].
  apply (C9_caller_context_untouched pipeline_abort (VString "1") 0 heap0
           baseContext); [reflexivity|exact Hk].
Defined.

(** * Further properties of the code *)

(** ** Task: construction, [push] and [id] *)

(** X1.  [push] with no step fails with a TypeError; with steps it keeps
    the name and the steps the task had and puts the new ones after them,
    so that pushing [a] and then [b] gives the task that pushing [a ++ b]
    gives. *)
Theorem X1_push_appends_in_order (t : Task) (a b : list Step) :
  a ≠ [] → b ≠ [] →
  Task_push t [] = Throw (VTypeError "Expected at least one step") ∧
  ∃ t1 t2,
    Task_push t a = Return t1 ∧
    task_name t1 = task_name t ∧
    task_steps t1 = task_steps t ++ a ∧
    Task_push t1 b = Return t2 ∧
    Task_push t (a ++ b) = Return t2.
Proof.
  intros Ha Hb. split; [done|].
  exists (mkTask (task_name t) (task_steps t ++ a)),
         (mkTask (task_name t) (task_steps t ++ a ++ b)).
  unfold Task_push. simpl.
  repeat case_decide; try (by destruct a); try (by destruct b).
  by rewrite <- app_assoc.
Qed.

Lemma X1_witness :
  [throw_step "x"] ≠ [] ∧ [concat_step "a" "b"] ≠ [] ∧
  Task_push task_ab [] = Throw (VTypeError "Expected at least one step") ∧
  ∃ t1 t2,
    Task_push task_ab [throw_step "x"] = Return t1 ∧
    task_name t1 = task_name task_ab ∧
    task_steps t1 = task_steps task_ab ++ [throw_step "x"] ∧
    Task_push t1 [concat_step "a" "b"] = Return t2 ∧
    Task_push task_ab ([throw_step "x"] ++ [concat_step "a" "b"]) = Return t2.
Proof.
  split; [done|]. split; [done|].
  apply (X1_push_appends_in_order task_ab [throw_step "x"]
           [concat_step "a" "b"]); done.
Defined.

(** X2.  The constructor copies the steps it is given, in order; omitting
    [steps] is the same as giving none; and constructing with [a] and then
    pushing [b] gives the task constructed with [a ++ b]. *)
Theorem X2_constructor_copies_steps (name : string) (a b : list Step) :
  b ≠ [] →
  task_steps (Task_new name (Some a)) = a ∧
  task_name (Task_new name (Some a)) = name ∧
  Task_new name None = Task_new name (Some []) ∧
  Task_push (Task_new name (Some a)) b = Return (Task_new name (Some (a ++ b))).
Proof.
  intros Hb.
  assert (∀ l : list Step, task_steps (Task_new name (Some l)) = l) as Hs.
  { intros l. unfold Task_new. simpl. case_decide; [by destruct l|done]. }
  split; [apply Hs|]. split; [done|]. split; [done|].
  unfold Task_push. case_decide; [by destruct b|].
  rewrite (Hs a). f_equal.
  transitivity (mkTask name (task_steps (Task_new name (Some (a ++ b)))));
    [by rewrite Hs|done].
Qed.

Lemma X2_witness :
  [concat_step "" ":b"] ≠ [] ∧
  task_steps (Task_new "ab" (Some [concat_step "a:" ""])) =
    [concat_step "a:" ""] ∧
  task_name (Task_new "ab" (Some [concat_step "a:" ""])) = "ab" ∧
  Task_new "ab" None = Task_new "ab" (Some []) ∧
  Task_push (Task_new "ab" (Some [concat_step "a:" ""])) [concat_step "" ":b"] =
    Return (Task_new "ab" (Some ([concat_step "a:" ""] ++ [concat_step "" ":b"]))).
Proof.
  split; [done|].
  apply (X2_constructor_copies_steps "ab" [concat_step "a:" ""]
           [concat_step "" ":b"]). done.
Defined.

Lemma string_app_assoc (s1 s2 s3 : string) :
  (s1 +:+ s2) +:+ s3 = s1 +:+ (s2 +:+ s3).
Proof.
  induction s1 as [|a s1 IH]; [done|].
  change (String a ((s1 +:+ s2) +:+ s3) = String a (s1 +:+ s2 +:+ s3)).
  by rewrite IH.
Qed.

Lemma concat_app_nonempty (sep : string) (l1 l2 : list string) :
  l1 ≠ [] → l2 ≠ [] →
  String.concat sep (l1 ++ l2) =
    String.concat sep l1 +:+ sep +:+ String.concat sep l2.
Proof.
  intros H1 H2. induction l1 as [|x l1 IH]; [done|].
  destruct l1 as [|y l1].
  - simpl. by destruct l2.
  - change (String.concat sep ((x :: y :: l1) ++ l2))
      with (x +:+ sep +:+ String.concat sep ((y :: l1) ++ l2)).
    rewrite IH by done.
    change (String.concat sep (x :: y :: l1))
      with (x +:+ sep +:+ String.concat sep (y :: l1)).
    by rewrite !string_app_assoc.
Qed.

(** X3.  The [id] of a task is made of its step names only, joined by
    dots: it does not depend on the name of the task, it is empty for a
    task without steps, and after a [push] it is the old id, a dot, and
    the joined names of the pushed steps. *)
Theorem X3_id_joins_step_names (t : Task) (a : list Step) :
  task_steps t ≠ [] → a ≠ [] →
  (∀ name, Task_id (mkTask name (task_steps t)) = Task_id t) ∧
  (∀ name, Task_id (Task_new name None) = "") ∧
  ∃ t', Task_push t a = Return t' ∧
        Task_id t' =
          Task_id t +:+ "." +:+ String.concat "." (map step_name a).
Proof.
  intros Ht Ha. split; [done|]. split; [done|].
  unfold Task_push. case_decide; [by destruct a|].
  eexists. split; [done|]. unfold Task_id. simpl.
  rewrite map_app. apply concat_app_nonempty.
  - by destruct (task_steps t).
  - by destruct a.
Qed.

Lemma X3_witness :
  task_steps (pure_task [("load", inc); ("parse", dbl)]) ≠ [] ∧
  [pure_step "save" inc] ≠ [] ∧
  (∀ name, Task_id (mkTask name (task_steps (pure_task [("load", inc); ("parse", dbl)]))) =
           Task_id (pure_task [("load", inc); ("parse", dbl)])) ∧
  (∀ name, Task_id (Task_new name None) = "") ∧
  ∃ t', Task_push (pure_task [("load", inc); ("parse", dbl)])
          [pure_step "save" inc] = Return t' ∧
        Task_id t' =
          Task_id (pure_task [("load", inc); ("parse", dbl)]) +:+ "." +:+
          String.concat "." (map step_name [pure_step "save" inc]).
Proof.
  split; [done|]. split; [done|].
  apply (X3_id_joins_step_names (pure_task [("load", inc); ("parse", dbl)])
           [pure_step "save" inc]); done.
Defined.

Example id_example :
  Task_id (pure_task [("load", inc); ("parse", dbl)]) = "load.parse".
Proof. reflexivity. Qed.

(** ** Task.run: what a run does to the store *)

(** X4.  [Task.run] only appends to the log: whether it returns or throws,
    the entries that were in the log are still there, unchanged and in
    place, followed by one new record per step of the task, named after
    the steps in order. *)
Theorem X4_run_only_appends (t : Task) (v : Value) (c : loc) (h : Heap)
    (l0 : list StepRecord) :
  Forall (λ s, keeps_log (step_fn s)) (task_steps t) →
  get_steps c h = Some l0 →
  ∃ recs,
    get_steps c (Task_run t v c h).1 = Some (l0 ++ recs) ∧
    map name recs = map step_name (task_steps t).
Proof.
  intros Hk Hlog.
  destruct (Task_run t v c h) as [h' res] eqn:Hrun.
  exact (Task_run_appends _ _ _ _ _ _ _ Hk Hlog Hrun).
Qed.

Lemma task_boom_keeps_log :
  Forall (λ s, keeps_log (step_fn s)) (task_steps task_boom).
Proof. repeat constructor; intros v c h; by destruct v. Qed.

Lemma X4_witness :
  Forall (λ s, keeps_log (step_fn s)) (task_steps task_boom) ∧
  get_steps 0 (put_steps 0 [pending_record (throw_step "old")] heap0) =
    Some [pending_record (throw_step "old")] ∧
  ∃ recs,
    get_steps 0
      (Task_run task_boom (VString "1") 0
         (put_steps 0 [pending_record (throw_step "old")] heap0)).1 =
      Some ([pending_record (throw_step "old")] ++ recs) ∧
    map name recs = map step_name (task_steps task_boom).
Proof.
  split; [exact task_boom_keeps_log|]. split; [reflexivity|].
  apply (X4_run_only_appends task_boom (VString "1") 0
           (put_steps 0 [pending_record (throw_step "old")] heap0)
           [pending_record (throw_step "old")]).
  - exact task_boom_keeps_log.
  - reflexivity.
Defined.

Lemma instanceof_rethrown (err : Value) (c : loc) :
  instanceof_TaskError (rethrown err c) = true.
Proof. unfold rethrown. by destruct (instanceof_TaskError err) eqn:He. Qed.

(** With a log and steps that keep to their contract, whatever [Task.run]
    throws is what [rethrown] makes of an error a step raised. *)
Lemma Task_run_throws (t : Task) (v : Value) (c : loc) (h h' : Heap)
    (l0 : list StepRecord) (e : Value) :
  Forall (λ s, keeps_log (step_fn s)) (task_steps t) →
  get_steps c h = Some l0 →
  Task_run t v c h = (h', Throw e) →
  ∃ err, e = rethrown err c.
Proof.
  intros Hk Hlog Hrun.
  destruct (task_steps t) as [|s0 steps] eqn:Hsteps.
  - by rewrite (Task_run_nil _ _ _ _ _ Hsteps Hlog) in Hrun.
  - destruct (snoc_of_nonempty (s0 :: steps)) as (init & z & Hsn); [done|].
    rewrite <- Hsteps in Hk. rewrite Hsn in Hsteps.
    destruct (Task_run_log _ _ _ _ _ _ _ _ _ Hsteps Hk Hlog Hrun)
      as (r' & _ & _ & _ & err & _ & ->).
    by exists err.
Qed.

(** X5.  On a context that has a log, and with steps that keep to their
    contract, everything [Task.run] throws is a [TaskError]: a caller can
    rely on [instanceof TaskError] in its handler. *)
Theorem X5_run_throws_only_TaskError (t : Task) (v : Value) (c : loc)
    (h h' : Heap) (l0 : list StepRecord) (e : Value) :
  Forall (λ s, keeps_log (step_fn s)) (task_steps t) →
  get_steps c h = Some l0 →
  Task_run t v c h = (h', Throw e) →
  instanceof_TaskError e = true.
Proof.
  intros Hk Hlog Hrun.
  destruct (Task_run_throws _ _ _ _ _ _ _ Hk Hlog Hrun) as [err ->].
  apply instanceof_rethrown.
Qed.

Lemma X5_witness :
  ∃ h',
    Forall (λ s, keeps_log (step_fn s)) (task_steps task_boom) ∧
    get_steps 0 heap0 = Some [] ∧
    Task_run task_boom (VString "1") 0 heap0 =
      (h', Throw (VTaskError "FALL_THROUGH" 0 [VError "boom"] "Task failed")) ∧
    instanceof_TaskError
      (VTaskError "FALL_THROUGH" 0 [VError "boom"] "Task failed") = true.
Proof.
  eexists. split; [exact task_boom_keeps_log|]. split; [reflexivity|].
  split; [reflexivity|].
  eapply (X5_run_throws_only_TaskError task_boom (VString "1") 0 heap0 _ []).
  - exact task_boom_keeps_log.
  - reflexivity.
  - reflexivity.
Defined.

(** X6.  A context without a step log (no object, no [steps] property, or
    a [steps] that is not the array) makes [Task.run] throw a bare
    TypeError before any step is called, the store being left as it was,
    even for a task without steps; and with steps that keep to their
    contract this is the only way it throws that TypeError unwrapped. *)
Theorem X6_run_without_log (t : Task) (v : Value) (c : loc) (h : Heap) :
  Forall (λ s, keeps_log (step_fn s)) (task_steps t) →
  ((Task_run t v c h).2 = Throw undefined_access ↔ get_steps c h = None) ∧
  ((Task_run t v c h).2 = Throw undefined_access → (Task_run t v c h).1 = h).
Proof.
  intros Hk.
  assert (get_steps c h = None → Task_run t v c h = (h, Throw undefined_access))
    as Hnone.
  { intros Hlog. unfold Task_run, push_steps. by rewrite Hlog. }
  assert ((Task_run t v c h).2 = Throw undefined_access → get_steps c h = None)
    as Hsome.
  { destruct (get_steps c h) as [l0|] eqn:Hlog; [|done].
    destruct (Task_run t v c h) as [h' res] eqn:Hrun. simpl. intros ->.
    destruct (Task_run_throws _ _ _ _ _ _ _ Hk Hlog Hrun) as [err He].
    pose proof (instanceof_rethrown err c) as Hi. by rewrite <- He in Hi. }
  split; [split|].
  - exact Hsome.
  - intros Hlog. by rewrite (Hnone Hlog).
  - intros Hlog%Hsome. by rewrite (Hnone Hlog).
Qed.

Lemma X6_witness :
  Forall (λ s, keeps_log (step_fn s)) (task_steps task_ab) ∧
  get_steps 7 heap0 = None ∧
  Task_run task_ab (VString "1") 7 heap0 = (heap0, Throw undefined_access) ∧
  ((Task_run task_ab (VString "1") 7 heap0).2 = Throw undefined_access ↔
   get_steps 7 heap0 = None) ∧
  ((Task_run task_ab (VString "1") 7 heap0).2 = Throw undefined_access →
   (Task_run task_ab (VString "1") 7 heap0).1 = heap0).
Proof.
  assert (Forall (λ s, keeps_log (step_fn s)) (task_steps task_ab)) as Hk.
  { repeat constructor; apply keeps_log_concat_step. }
  split; [exact Hk|]. split; [reflexivity|]. split; [reflexivity|].
  exact (X6_run_without_log task_ab (VString "1") 7 heap0 Hk).
Defined.

(** ** What the runs leave alone *)

Section untouched_properties.
(** The run works on the context [c]; [k] at [l] is any property but the
    log of [c]. *)
Variables (c l : loc) (k : string).
Hypothesis Hother : l ≠ c ∨ k ≠ "steps".

Lemma put_steps_prop (ls : list StepRecord) (h : Heap) :
  prop_at l k (put_steps c ls h) = prop_at l k h.
Proof.
  unfold prop_at, put_steps. destruct (h !! c) as [o|] eqn:Ho; [|done].
  destruct (decide (l = c)) as [->|Hl].
  - rewrite lookup_insert_eq, Ho. simpl.
    destruct Hother as [?|Hk]; [done|]. by rewrite lookup_insert_ne.
  - by rewrite lookup_insert_ne.
Qed.

Lemma set_last_prop (upd : StepRecord → StepRecord) (h h' : Heap) :
  set_last upd c h = Some h' → prop_at l k h' = prop_at l k h.
Proof.
  intros (ls & r & _ & ->)%set_last_Some_inv. apply put_steps_prop.
Qed.

Lemma run_catch_prop (err : Value) (h : Heap) :
  prop_at l k (run_catch err c h).1 = prop_at l k h.
Proof.
  unfold run_catch.
  destruct (set_last (set_status failure) c h) as [h1|] eqn:H1; [|done].
  destruct (set_last (set_error err) c h1) as [h2|] eqn:H2; simpl.
  - rewrite (set_last_prop _ _ _ H2). apply (set_last_prop _ _ _ H1).
  - apply (set_last_prop _ _ _ H1).
Qed.

Lemma run_steps_prop (steps : list Step) (v : Value) (h : Heap) :
  Forall (λ s, preserves c l k (step_fn s)) steps →
  prop_at l k (run_steps steps v c h).1 = prop_at l k h.
Proof.
  intros Hk. revert v h.
  induction Hk as [|step rest Hstep _ IH]; intros v h; simpl; [done|].
  destruct (set_last (set_input v) c h) as [h1|] eqn:H1; [|done].
  pose proof (Hstep v h1) as Hf.
  rewrite (set_last_prop _ _ _ H1) in Hf.
  destruct (step_fn step v c h1) as [h2 [out|err]]; simpl in Hf.
  - destruct (set_last (set_status success) c h2) as [h3|] eqn:H3.
    + destruct (set_last (set_output out) c h3) as [h4|] eqn:H4.
      * by rewrite IH, (set_last_prop _ _ _ H4), (set_last_prop _ _ _ H3).
      * by rewrite run_catch_prop, (set_last_prop _ _ _ H3).
    + by rewrite run_catch_prop.
  - by rewrite run_catch_prop.
Qed.

Lemma Task_run_prop (t : Task) (v : Value) (h : Heap) :
  Forall (λ s, preserves c l k (step_fn s)) (task_steps t) →
  prop_at l k (Task_run t v c h).1 = prop_at l k h.
Proof.
  intros Hk. unfold Task_run, push_steps.
  destruct (get_steps c h) as [ls|]; [|done].
  rewrite (run_steps_prop _ _ _ Hk). apply put_steps_prop.
Qed.

Lemma run_configuration_prop (cfg : PipelineConfiguration) (v : Value)
    (h : Heap) :
  config_preserves c l k cfg →
  prop_at l k (run_configuration cfg v c h).1 = prop_at l k h.
Proof.
  intros [Hk Hsel]. unfold run_configuration.
  assert (prop_at l k (taskInput cfg v c h).1 = prop_at l k h) as Hin.
  { destruct cfg as [t|[| |f] t]; simpl; first [done|by apply Hsel]. }
  destruct (taskInput cfg v c h) as [h1 [v1|e]]; simpl in Hin; [|done].
  by rewrite (Task_run_prop _ _ _ Hk).
Qed.

Lemma run_tasks_prop (tasks : list PipelineConfiguration) (v : Value)
    (h : Heap) :
  Forall (config_preserves c l k) tasks →
  prop_at l k (run_tasks tasks v c h).1 = prop_at l k h.
Proof.
  intros Hk. revert v h.
  induction Hk as [|cfg tasks Hcfg _ IH]; intros v h; simpl; [done|].
  pose proof (run_configuration_prop _ v h Hcfg) as Hc.
  destruct (run_configuration cfg v c h) as [h1 [out|e]]; simpl in Hc.
  - by rewrite IH.
  - by destruct (pipeline_catch_throws c h1) as [e' ->].
Qed.
End untouched_properties.

(** X7.  [Task.run] writes to nothing but the [steps] array of its
    context: any other property of the context object, and any property of
    any other object, that the steps themselves leave alone, is the same
    after the run as before, whether the run returns or throws. *)
Theorem X7_run_writes_only_the_log (t : Task) (v : Value) (c l : loc)
    (k : string) (h : Heap) :
  l ≠ c ∨ k ≠ "steps" →
  Forall (λ s, preserves c l k (step_fn s)) (task_steps t) →
  prop_at l k (Task_run t v c h).1 = prop_at l k h.
Proof. intros Hother Hk. by apply Task_run_prop. Qed.

Lemma X7_witness :
  (0 ≠ 0 ∨ "user" ≠ "steps") ∧
  Forall (λ s, preserves 0 0 "user" (step_fn s)) (task_steps task_boom) ∧
  prop_at 0 "user"
    (Task_run task_boom (VString "1") 0
       (<[0 := <["user" := PValue (VString "ann")]> baseContext]> heap0)).1 =
    prop_at 0 "user"
      (<[0 := <["user" := PValue (VString "ann")]> baseContext]> heap0).
Proof.
  assert (Forall (λ s, preserves 0 0 "user" (step_fn s)) (task_steps task_boom))
    as Hk.
  { repeat constructor; try (intros v h; by destruct v). }
  split; [by right|]. split; [exact Hk|].
  apply (X7_run_writes_only_the_log task_boom (VString "1") 0 0 "user");
    [by right|exact Hk].
Defined.

(** X8.  The context a pipeline runs on has every property of the caller's
    object other than [steps], with the caller's value, and still has it
    when the run ends, returning or throwing, as long as the user code does
    not write that property. *)
Theorem X8_caller_properties_flow_through (p : Pipeline) (input : Value)
    (context : loc) (h : Heap) (o : Obj) (k : string) :
  h !! context = Some o →
  k ≠ "steps" →
  Forall (config_preserves (new_loc h) (new_loc h) k) (pipeline_tasks p) →
  prop_at (new_loc h) k (Pipeline_run p input context h).1 = o !! k.
Proof.
  intros Ho Hk Hp. unfold Pipeline_run.
  rewrite (run_tasks_prop _ _ _ (or_intror Hk) _ _ _ Hp).
  unfold prop_at, deref. rewrite lookup_insert_eq, Ho. simpl.
  rewrite spread_baseContext. by rewrite lookup_insert_ne.
Qed.

Lemma X8_witness :
  (<[0 := <["user" := PValue (VString "ann")]> baseContext]> heap0) !! 0 =
    Some (<["user" := PValue (VString "ann")]> baseContext) ∧
  "user" ≠ "steps" ∧
  Forall (config_preserves
            (new_loc (<[0 := <["user" := PValue (VString "ann")]> baseContext]> heap0))
            (new_loc (<[0 := <["user" := PValue (VString "ann")]> baseContext]> heap0))
            "user")
    (pipeline_tasks pipeline_abort) ∧
  prop_at (new_loc (<[0 := <["user" := PValue (VString "ann")]> baseContext]> heap0))
    "user"
    (Pipeline_run pipeline_abort (VString "1") 0
       (<[0 := <["user" := PValue (VString "ann")]> baseContext]> heap0)).1 =
    (<["user" := PValue (VString "ann")]> baseContext) !! "user".
Proof.
  assert (∀ c, Forall (config_preserves c c "user")
                 (pipeline_tasks pipeline_abort)) as Hk.
  { intros c. repeat constructor; try (intros v h; by destruct v). }
  split; [reflexivity|]. split; [done|]. split; [apply Hk|].
  apply (X8_caller_properties_flow_through pipeline_abort (VString "1") 0);
    [reflexivity|done|apply Hk].
Defined.

(** ** Pipelines of tasks that only compute *)

Lemma pure_task_keeps_log (nfs : list (string * (Value → Value))) :
  Forall (λ s, keeps_log (step_fn s)) (task_steps (pure_task nfs)).
Proof.
  unfold pure_task. simpl. apply Forall_fmap, Forall_true.
  intros [n f]. apply keeps_log_pure.
Qed.

Lemma Task_run_pure (nfs : list (string * (Value → Value))) (v : Value)
    (c : loc) (h : Heap) (l0 : list StepRecord) :
  get_steps c h = Some l0 →
  ∃ h' recs,
    Task_run (pure_task nfs) v c h =
      (h', Return (fold_left (λ x nf, nf.2 x) nfs v)) ∧
    get_steps c h' = Some (l0 ++ recs).
Proof.
  intros Hlog.
  destruct (Task_run (pure_task nfs) v c h) as [h' res] eqn:Hrun.
  destruct (Task_run_appends _ _ _ _ _ _ _ (pure_task_keeps_log nfs) Hlog Hrun)
    as (recs & Hlog' & _).
  exists h', recs. split; [|done]. f_equal.
  change res with (h', res).2. rewrite <- Hrun.
  unfold Task_run. rewrite (push_steps_Some _ _ _ _ Hlog).
  destruct nfs as [|nf nfs]; [done|].
  destruct (snoc_of_nonempty
              (l0 ++ map pending_record (task_steps (pure_task (nf :: nfs)))))
    as (l & r & Hl); [by destruct l0|].
  rewrite Hl. eapply run_steps_pure. by eapply get_put_steps.
Qed.

Lemma run_tasks_pure (nfss : list (list (string * (Value → Value))))
    (v : Value) (ctx : loc) (h : Heap) (l0 : list StepRecord) :
  get_steps ctx h = Some l0 →
  (run_tasks (map pure_config nfss) v ctx h).2 =
    Return (mkPipelineOutput (fold_left (λ x nf, nf.2 x) (concat nfss) v) ctx).
Proof.
  revert v h l0. induction nfss as [|nfs nfss IH]; intros v h l0 Hlog; [done|].
  simpl. unfold run_configuration. simpl.
  destruct (Task_run_pure nfs v ctx h l0 Hlog) as (h' & recs & -> & Hlog').
  rewrite fold_left_app. by eapply IH.
Qed.

(** X9.  For steps that only compute, how the steps are grouped into tasks
    does not change the result: a pipeline of bare tasks returns what the
    single task made of all their steps, in order, returns, which is the
    composition of the steps applied to the input. *)
Theorem X9_grouping_steps_into_tasks (name : string)
    (nfss : list (list (string * (Value → Value)))) (input : Value)
    (context c : loc) (h h1 : Heap) (l0 : list StepRecord) :
  get_steps c h1 = Some l0 →
  (Pipeline_run (mkPipeline name (map pure_config nfss)) input context h).2 =
    Return (mkPipelineOutput
              (fold_left (λ x nf, nf.2 x) (concat nfss) input) (new_loc h)) ∧
  (Task_run (pure_task (concat nfss)) input c h1).2 =
    Return (fold_left (λ x nf, nf.2 x) (concat nfss) input).
Proof.
  intros Hlog. split.
  - unfold Pipeline_run. simpl. eapply run_tasks_pure, spread_log.
  - by destruct (Task_run_pure (concat nfss) input c h1 l0 Hlog)
      as (h' & recs & -> & _).
Qed.

Lemma X9_witness :
  get_steps 0 heap0 = Some [] ∧
  (Pipeline_run
     (mkPipeline "p" (map pure_config [[("inc", inc)]; [("dbl", dbl); ("inc", inc)]]))
     (VNumber 3) 0 heap0).2 =
    Return (mkPipelineOutput
              (fold_left (λ x nf, nf.2 x)
                 (concat [[("inc", inc)]; [("dbl", dbl); ("inc", inc)]])
                 (VNumber 3))
              (new_loc heap0)) ∧
  (Task_run (pure_task (concat [[("inc", inc)]; [("dbl", dbl); ("inc", inc)]]))
     (VNumber 3) 0 heap0).2 =
    Return (fold_left (λ x nf, nf.2 x)
              (concat [[("inc", inc)]; [("dbl", dbl); ("inc", inc)]])
              (VNumber 3)).
Proof.
  split; [reflexivity|].
  apply (X9_grouping_steps_into_tasks "p"
           [[("inc", inc)]; [("dbl", dbl); ("inc", inc)]] (VNumber 3) 0 0
           heap0 heap0 []).
  reflexivity.
Defined.

Example grouping_example :
  (Task_run (pure_task [("inc", inc); ("dbl", dbl); ("inc", inc)])
     (VNumber 3) 0 heap0).2 = Return (VNumber 9).
Proof. vm_compute. done. Qed.

(** ** Pipeline: construction *)

Lemma run_tasks_last (front : list PipelineConfiguration)
    (cfg : PipelineConfiguration) (v : Value) (ctx : loc) (h h' : Heap)
    (po : PipelineOutput) :
  run_tasks (front ++ [cfg]) v ctx h = (h', Return po) →
  ∃ hm prev,
    run_tasks front v ctx h = (hm, Return (mkPipelineOutput prev ctx)) ∧
    run_configuration cfg prev ctx hm = (h', Return (po_output po)).
Proof.
  rewrite run_tasks_app.
  destruct (run_tasks front v ctx h) as [hm [pm|e]] eqn:Hf; [|done]. simpl.
  pose proof (run_tasks_context _ _ _ _ _ _ Hf) as Hctx.
  destruct (run_configuration cfg (po_output pm) ctx hm) as [h1 [out|e]] eqn:Hc.
  - intros [= <- <-]. exists hm, (po_output pm). split; [|done].
    destruct pm as [o c']. simpl in *. by subst.
  - by destruct (pipeline_catch_throws ctx h1) as [e' ->].
Qed.

(** X10.  The constructor of a pipeline rejects an empty list of
    configurations with a TypeError, so a pipeline it has built has a last
    configuration: when a run of such a pipeline returns, its output is
    the value the run of that last configuration returned, and the store
    is the one that run left. *)
Theorem X10_constructed_pipeline_returns_last_output (name : string)
    (tasks : list PipelineConfiguration) (p : Pipeline) (input : Value)
    (context : loc) (h h' : Heap) (po : PipelineOutput) :
  Pipeline_new name tasks = Return p →
  Pipeline_run p input context h = (h', Return po) →
  Pipeline_new name [] = Throw (VTypeError "Expected at least one task") ∧
  pipeline_name p = name ∧ pipeline_tasks p = tasks ∧
  ∃ front cfg hm prev,
    tasks = front ++ [cfg] ∧
    run_tasks front input (new_loc h)
      (<[new_loc h := spread (deref context h) baseContext]> h) =
      (hm, Return (mkPipelineOutput prev (new_loc h))) ∧
    run_configuration cfg prev (new_loc h) hm = (h', Return (po_output po)).
Proof.
  unfold Pipeline_new. case_decide as Hlen; [done|]. intros [= <-] Hrun.
  split; [done|]. split; [done|]. split; [done|].
  destruct (snoc_of_nonempty tasks) as (front & cfg & ->); [by destruct tasks|].
  unfold Pipeline_run in Hrun. simpl in Hrun.
  destruct (run_tasks_last _ _ _ _ _ _ _ Hrun) as (hm & prev & Hf & Hc).
  by exists front, cfg, hm, prev.
Qed.

Lemma X10_witness :
  ∃ h',
    Pipeline_new "ok" (pipeline_tasks pipeline_ok) = Return pipeline_ok ∧
    Pipeline_run pipeline_ok (VString "1") 0 heap0 =
      (h', Return (mkPipelineOutput (VString "<a:1:b!>") 1)) ∧
    Pipeline_new "ok" [] = Throw (VTypeError "Expected at least one task") ∧
    pipeline_name pipeline_ok = "ok" ∧
    pipeline_tasks pipeline_ok = pipeline_tasks pipeline_ok ∧
    ∃ front cfg hm prev,
      pipeline_tasks pipeline_ok = front ++ [cfg] ∧
      run_tasks front (VString "1") (new_loc heap0)
        (<[new_loc heap0 := spread (deref 0 heap0) baseContext]> heap0) =
        (hm, Return (mkPipelineOutput prev (new_loc heap0))) ∧
      run_configuration cfg prev (new_loc heap0) hm =
        (h', Return (po_output (mkPipelineOutput (VString "<a:1:b!>") 1))).
Proof.
  eexists. split; [reflexivity|]. split; [reflexivity|].
  apply (X10_constructed_pipeline_returns_last_output "ok"
           (pipeline_tasks pipeline_ok) pipeline_ok (VString "1") 0 heap0);
    reflexivity.
Defined.

(** ** Pipeline.run: what is thrown *)

Lemma failure_errors_app (l1 l2 : list StepRecord) :
  failure_errors (l1 ++ l2) = failure_errors l1 ++ failure_errors l2.
Proof. unfold failure_errors. by rewrite filter_app, map_app. Qed.

Lemma failure_errors_none (l : list StepRecord) :
  Forall (λ r, status r ≠ failure) l → failure_errors l = [].
Proof.
  intros H. unfold failure_errors.
  induction H as [|r l Hr _ IH]; [done|]. by rewrite filter_cons_False.
Qed.

Lemma taskInput_log (cfg : PipelineConfiguration) (v : Value) (c : loc)
    (h : Heap) :
  config_keeps_log cfg →
  get_steps c (taskInput cfg v c h).1 = get_steps c h.
Proof.
  intros [_ Hsel]. destruct cfg as [t|[| |f] t]; simpl;
    first [done|apply Hsel].
Qed.

(** A configuration keeps the log in place whatever its outcome. *)
Lemma run_configuration_log (cfg : PipelineConfiguration) (v : Value)
    (c : loc) (h : Heap) (l0 : list StepRecord) :
  config_keeps_log cfg →
  get_steps c h = Some l0 →
  ∃ recs, get_steps c (run_configuration cfg v c h).1 = Some (l0 ++ recs).
Proof.
  intros Hcfg Hlog. pose proof (taskInput_log cfg v c h Hcfg) as Hin.
  unfold run_configuration.
  destruct (taskInput cfg v c h) as [h1 [v1|e]]; simpl in Hin.
  - destruct (Task_run (taskFn cfg) v1 c h1) as [h' res] eqn:Hrun.
    destruct Hcfg as [Hk _].
    assert (get_steps c h1 = Some l0) as Hlog1 by congruence.
    destruct (Task_run_appends _ _ _ _ _ l0 _ Hk Hlog1 Hrun)
      as (recs & Hlog' & _).
    by exists recs.
  - exists []. simpl. rewrite app_nil_r. congruence.
Qed.

(** A configuration that returns has appended no [failure] record. *)
Lemma run_configuration_return (cfg : PipelineConfiguration) (v : Value)
    (c : loc) (h h' : Heap) (l0 : list StepRecord) (out : Value) :
  config_keeps_log cfg →
  get_steps c h = Some l0 →
  run_configuration cfg v c h = (h', Return out) →
  ∃ recs, get_steps c h' = Some (l0 ++ recs) ∧
          Forall (λ r, status r ≠ failure) recs.
Proof.
  intros Hcfg Hlog. pose proof (taskInput_log cfg v c h Hcfg) as Hin.
  unfold run_configuration.
  destruct (taskInput cfg v c h) as [h1 [v1|e]]; simpl in Hin; [|done].
  intros Hrun. destruct Hcfg as [Hk _].
  assert (get_steps c h1 = Some l0) as Hlog1 by congruence.
  destruct (task_steps (taskFn cfg)) as [|s0 steps] eqn:Hsteps.
  - rewrite (Task_run_nil _ _ _ _ _ Hsteps Hlog1) in Hrun. simplify_eq.
    exists []. by rewrite app_nil_r.
  - destruct (snoc_of_nonempty (s0 :: steps)) as (init & z & Hsn); [done|].
    rewrite <- Hsteps in Hk. rewrite Hsn in Hsteps.
    destruct (Task_run_log _ _ _ _ _ _ _ _ _ Hsteps Hk Hlog1 Hrun)
      as (r' & Hlog' & _ & Hst & _).
    exists (map pending_record init ++ [r']). split; [done|].
    apply Forall_app. split.
    + apply Forall_fmap, Forall_true. done.
    + constructor; [by rewrite Hst|constructor].
Qed.

Lemma run_tasks_return (tasks : list PipelineConfiguration) (v : Value)
    (ctx : loc) (h h' : Heap) (l0 : list StepRecord) (po : PipelineOutput) :
  Forall config_keeps_log tasks →
  get_steps ctx h = Some l0 →
  run_tasks tasks v ctx h = (h', Return po) →
  ∃ recs, get_steps ctx h' = Some (l0 ++ recs) ∧
          Forall (λ r, status r ≠ failure) recs.
Proof.
  intros Hk. revert v h l0.
  induction Hk as [|cfg tasks Hcfg _ IH]; intros v h l0 Hlog Hrun.
  - simpl in Hrun. simplify_eq. exists []. by rewrite app_nil_r.
  - simpl in Hrun.
    destruct (run_configuration cfg v ctx h) as [h1 [out|e]] eqn:Hc.
    + destruct (run_configuration_return _ _ _ _ _ _ _ Hcfg Hlog Hc)
        as (recs1 & Hlog1 & Hnf1).
      destruct (IH _ _ _ Hlog1 Hrun) as (recs & Hlog' & Hnf).
      exists (recs1 ++ recs). rewrite app_assoc. split; [done|].
      by apply Forall_app.
    + by destruct (pipeline_catch_throws ctx h1) as [e' He']; rewrite He' in Hrun.
Qed.

Lemma run_tasks_throws_PipelineError (tasks : list PipelineConfiguration)
    (v : Value) (ctx : loc) (h h' : Heap) (l0 : list StepRecord) (e : Value) :
  Forall config_keeps_log tasks →
  get_steps ctx h = Some l0 →
  run_tasks tasks v ctx h = (h', Throw e) →
  ∃ l, get_steps ctx h' = Some l ∧ e = PipelineError (failure_errors l) ctx.
Proof.
  intros Hk. revert v h l0.
  induction Hk as [|cfg tasks Hcfg _ IH]; intros v h l0 Hlog Hrun; [done|].
  simpl in Hrun.
  destruct (run_configuration_log cfg v ctx h l0 Hcfg Hlog) as (recs & Hlog1).
  destruct (run_configuration cfg v ctx h) as [h1 [out|e1]]; simpl in Hlog1.
  - by eapply IH.
  - unfold pipeline_catch in Hrun. rewrite Hlog1 in Hrun. simplify_eq. eauto.
Qed.

(** X11.  When the user code keeps to its contract, whatever goes wrong in
    a run of a pipeline reaches the caller as a [PipelineError] that holds
    the context of the run, never as the [TaskError] of the task or as the
    value a step or selector raised; its errors are those of the [failure]
    records of the log the run leaves. *)
Theorem X11_pipeline_throws_only_PipelineError (p : Pipeline) (input : Value)
    (context : loc) (h h' : Heap) (e : Value) :
  Forall config_keeps_log (pipeline_tasks p) →
  Pipeline_run p input context h = (h', Throw e) →
  ∃ l, get_steps (new_loc h) h' = Some l ∧
       e = VPipelineError (failure_errors l) (new_loc h) "Pipeline failed".
Proof.
  intros Hk Hrun. unfold Pipeline_run in Hrun.
  exact (run_tasks_throws_PipelineError _ _ _ _ _ [] _ Hk (spread_log _ _ _) Hrun).
Qed.

Lemma pipeline_abort_keeps_log :
  Forall config_keeps_log (pipeline_tasks pipeline_abort).
Proof.
  repeat constructor; try apply keeps_log_concat_step;
    intros v c h; by destruct v.
Qed.

Lemma X11_witness :
  ∃ h',
    Forall config_keeps_log (pipeline_tasks pipeline_abort) ∧
    Pipeline_run pipeline_abort (VString "1") 0 heap0 =
      (h', Throw (VPipelineError [VError "boom"] 1 "Pipeline failed")) ∧
    ∃ l, get_steps (new_loc heap0) h' = Some l ∧
         VPipelineError [VError "boom"] 1 "Pipeline failed" =
           VPipelineError (failure_errors l) (new_loc heap0) "Pipeline failed".
Proof.
  eexists. split; [exact pipeline_abort_keeps_log|]. split; [reflexivity|].
  apply (X11_pipeline_throws_only_PipelineError pipeline_abort (VString "1")
           0 heap0).
  - exact pipeline_abort_keeps_log.
  - reflexivity.
Defined.

(** X12.  When a selector throws, after configurations that all returned,
    the [PipelineError] has no error at all: the value the selector threw
    is not kept, and no record of the log is a [failure]. *)
Theorem X12_selector_error_is_dropped (p : Pipeline)
    (pre post : list PipelineConfiguration) (s : Fn) (t : Task)
    (input prevOutput e : Value) (context : loc) (h h1 h2 : Heap) :
  pipeline_tasks p = pre ++ Entry (Selector s) t :: post →
  Forall config_keeps_log pre →
  keeps_log s →
  run_tasks pre input (new_loc h)
    (<[new_loc h := spread (deref context h) baseContext]> h) =
    (h1, Return (mkPipelineOutput prevOutput (new_loc h))) →
  s prevOutput (new_loc h) h1 = (h2, Throw e) →
  Pipeline_run p input context h =
    (h2, Throw (VPipelineError [] (new_loc h) "Pipeline failed")).
Proof.
  intros Htasks Hpre Hs Hrun Hsel. unfold Pipeline_run.
  rewrite Htasks, run_tasks_app, Hrun. simpl.
  unfold run_configuration. simpl. rewrite Hsel.
  destruct (run_tasks_return _ _ _ _ _ [] _ Hpre (spread_log _ _ _) Hrun)
    as (recs & Hlog1 & Hnf).
  specialize (Hs prevOutput (new_loc h) h1). rewrite Hsel in Hs. simpl in Hs.
  unfold pipeline_catch. rewrite Hs, Hlog1. simpl.
  by rewrite (failure_errors_none _ Hnf).
Qed.

Lemma X12_witness :
  ∃ h1 h2,
    pipeline_tasks
      (mkPipeline "p" [BareTask task_ab; Entry (Selector throwing_selector) task_wrap]) =
      [BareTask task_ab] ++ Entry (Selector throwing_selector) task_wrap :: [] ∧
    Forall config_keeps_log [BareTask task_ab] ∧
    keeps_log throwing_selector ∧
    run_tasks [BareTask task_ab] (VString "1") (new_loc heap0)
      (<[new_loc heap0 := spread (deref 0 heap0) baseContext]> heap0) =
      (h1, Return (mkPipelineOutput (VString "a:1:b") (new_loc heap0))) ∧
    throwing_selector (VString "a:1:b") (new_loc heap0) h1 =
      (h2, Throw (VError "no input")) ∧
    Pipeline_run
      (mkPipeline "p" [BareTask task_ab; Entry (Selector throwing_selector) task_wrap])
      (VString "1") 0 heap0 =
      (h2, Throw (VPipelineError [] (new_loc heap0) "Pipeline failed")).
Proof.
  assert (Forall config_keeps_log [BareTask task_ab]) as Hk.
  { repeat constructor; apply keeps_log_concat_step. }
  eexists _, _. split; [reflexivity|]. split; [exact Hk|].
  split; [by intros v c h|]. split; [reflexivity|]. split; [reflexivity|].
  eapply (X12_selector_error_is_dropped _ [BareTask task_ab] []
            throwing_selector task_wrap (VString "1") (VString "a:1:b")
            (VError "no input") 0 heap0);
    [reflexivity|exact Hk|by intros v c h|reflexivity|reflexivity].
Defined.

(** X13.  When a step raises [err] in a task of a pipeline, after
    configurations that all returned, the [PipelineError] holds exactly
    [err], the value the step raised, and not the [TaskError] that
    [Task.run] threw for it. *)
Theorem X13_pipeline_error_holds_raw_error (p : Pipeline)
    (pre post : list PipelineConfiguration) (cfg : PipelineConfiguration)
    (spre : list Step) (s : Step) (input prevOutput v err : Value)
    (context : loc) (h h1 h1' h2 : Heap) :
  pipeline_tasks p = pre ++ cfg :: post →
  Forall config_keeps_log pre →
  config_keeps_log cfg →
  run_tasks pre input (new_loc h)
    (<[new_loc h := spread (deref context h) baseContext]> h) =
    (h1, Return (mkPipelineOutput prevOutput (new_loc h))) →
  taskInput cfg prevOutput (new_loc h) h1 = (h1', Return v) →
  raises_at (taskFn cfg) spre s v (new_loc h) h1' err h2 →
  ∃ h',
    Task_run (taskFn cfg) v (new_loc h) h1' =
      (h', Throw (rethrown err (new_loc h))) ∧
    Pipeline_run p input context h =
      (h', Throw (VPipelineError [err] (new_loc h) "Pipeline failed")).
Proof.
  intros Htasks Hpre Hcfg Hrun Hin Hraise.
  destruct (run_tasks_return _ _ _ _ _ [] _ Hpre (spread_log _ _ _) Hrun)
    as (recs & Hlog1 & Hnf).
  pose proof (taskInput_log cfg prevOutput (new_loc h) h1 Hcfg) as Hlog1'.
  rewrite Hin, Hlog1 in Hlog1'. simpl in Hlog1'.
  destruct Hcfg as [Hk _].
  assert (keeps_log (step_fn s)) as Hs.
  { destruct Hraise as (spost & _ & _ & _ & _ & Hsteps & _).
    rewrite Hsteps in Hk. apply Forall_app in Hk as [_ Hk].
    by apply Forall_cons in Hk as [Hk _]. }
  destruct (Task_run_raises _ _ _ _ _ _ _ _ Hs Hraise) as (l & r & Hl2 & Htask).
  assert (∃ init z, task_steps (taskFn cfg) = init ++ [z])
    as (init & z & Hsteps).
  { destruct Hraise as (spost & _ & _ & _ & _ & Hsteps & _). rewrite Hsteps.
    destruct spost as [|z spost _] using rev_ind.
    - by exists spre, s.
    - exists (spre ++ s :: spost), z. by rewrite <- app_assoc. }
  destruct (Task_run_log _ _ _ _ _ _ _ _ _ Hsteps Hk Hlog1' Htask)
    as (r' & Hlog' & _ & Hfail & _).
  pose proof (get_put_steps _ _ _
                (l ++ [set_error err (set_status failure r)]) Hl2) as Hput.
  rewrite Hput in Hlog'. injection Hlog' as Heq.
  rewrite !app_assoc in Heq. apply app_inj_tail in Heq as [Hl _].
  eexists. split; [exact Htask|].
  unfold Pipeline_run. rewrite Htasks, run_tasks_app, Hrun. simpl.
  unfold run_configuration. rewrite Hin, Htask.
  unfold pipeline_catch. rewrite Hput. do 2 f_equal.
  unfold PipelineError. f_equal.
  rewrite Hl, !failure_errors_app, (failure_errors_none _ Hnf).
  rewrite failure_errors_none by (apply Forall_fmap, Forall_true; done).
  reflexivity.
Qed.

Lemma X13_witness :
  ∃ h1 h1' h2,
    pipeline_tasks pipeline_abort =
      [BareTask task_ab] ++ BareTask task_boom :: [BareTask task_ab] ∧
    Forall config_keeps_log [BareTask task_ab] ∧
    config_keeps_log (BareTask task_boom) ∧
    run_tasks [BareTask task_ab] (VString "1") (new_loc heap0)
      (<[new_loc heap0 := spread (deref 0 heap0) baseContext]> heap0) =
      (h1, Return (mkPipelineOutput (VString "a:1:b") (new_loc heap0))) ∧
    taskInput (BareTask task_boom) (VString "a:1:b") (new_loc heap0) h1 =
      (h1', Return (VString "a:1:b")) ∧
    raises_at (taskFn (BareTask task_boom)) [concat_step "a:" ""]
      (throw_step "boom") (VString "a:1:b") (new_loc heap0) h1'
      (VError "boom") h2 ∧
    ∃ h',
      Task_run (taskFn (BareTask task_boom)) (VString "a:1:b") (new_loc heap0) h1' =
        (h', Throw (rethrown (VError "boom") (new_loc heap0))) ∧
      Pipeline_run pipeline_abort (VString "1") 0 heap0 =
        (h', Throw (VPipelineError [VError "boom"] (new_loc heap0)
                      "Pipeline failed")).
Proof.
  assert (Forall config_keeps_log [BareTask task_ab]) as Hk.
  { repeat constructor; apply keeps_log_concat_step. }
  assert (config_keeps_log (BareTask task_boom)) as Hb.
  { split; [exact task_boom_keeps_log|done]. }
  eexists _, _, _. split; [reflexivity|]. split; [exact Hk|].
  split; [exact Hb|]. split; [reflexivity|]. split; [reflexivity|].
  split.
  { unfold raises_at. eexists [concat_step "" ":c"], _, _, _, _.
    split; [reflexivity|]. split; [reflexivity|].
    split; [reflexivity|]. split; reflexivity. }
  eapply (X13_pipeline_error_holds_raw_error pipeline_abort
            [BareTask task_ab] [BareTask task_ab] (BareTask task_boom)
            [concat_step "a:" ""] (throw_step "boom") (VString "1")
            (VString "a:1:b") (VString "a:1:b") (VError "boom") 0 heap0);
    [reflexivity|exact Hk|exact Hb|reflexivity|reflexivity|].
  unfold raises_at. eexists [concat_step "" ":c"], _, _, _, _.
  split; [reflexivity|]. split; [reflexivity|].
  split; [reflexivity|]. split; reflexivity.
Defined.

(** X14.  The log of a run that returned has no [failure] record: when
    the user code keeps to its contract, a pipeline returns only if no
    record of the context it returns has status [failure], so the scan
    that a [PipelineError] is built from finds nothing in it. *)
Theorem X14_returned_log_has_no_failure (p : Pipeline) (input : Value)
    (context : loc) (h h' : Heap) (po : PipelineOutput) :
  Forall config_keeps_log (pipeline_tasks p) →
  Pipeline_run p input context h = (h', Return po) →
  ∃ l, get_steps (po_context po) h' = Some l ∧
       Forall (λ r, status r ≠ failure) l ∧
       failure_errors l = [].
Proof.
  intros Hk Hrun. unfold Pipeline_run in Hrun.
  rewrite (run_tasks_context _ _ _ _ _ _ Hrun).
  destruct (run_tasks_return _ _ _ _ _ [] _ Hk (spread_log _ _ _) Hrun)
    as (recs & Hlog & Hnf).
  exists recs. split; [done|]. split; [done|]. by apply failure_errors_none.
Qed.

Lemma X14_witness :
  ∃ h',
    Forall config_keeps_log (pipeline_tasks pipeline_ok) ∧
    Pipeline_run pipeline_ok (VString "1") 0 heap0 =
      (h', Return (mkPipelineOutput (VString "<a:1:b!>") 1)) ∧
    ∃ l, get_steps (po_context (mkPipelineOutput (VString "<a:1:b!>") 1)) h' =
           Some l ∧
         Forall (λ r, status r ≠ failure) l ∧
         failure_errors l = [].
Proof.
  eexists. split; [exact pipeline_ok_keeps_log|]. split; [reflexivity|].
  apply (X14_returned_log_has_no_failure pipeline_ok (VString "1") 0 heap0).
  - exact pipeline_ok_keeps_log.
  - reflexivity.
Defined.

(** X15.  An entry whose [selector] property is present and [undefined]
    is not an entry without selector: after configurations that returned
    [prevOutput], its task is run on [undefined], not on [prevOutput]. *)
Theorem X15_undefined_selector_passes_undefined
    (pre post : list PipelineConfiguration) (t : Task)
    (input prevOutput : Value) (ctx : loc) (h0 h1 : Heap) :
  run_tasks pre input ctx h0 = (h1, Return (mkPipelineOutput prevOutput ctx)) →
  run_tasks (pre ++ Entry UndefinedSelector t :: post) input ctx h0 =
    match Task_run t VUndefined ctx h1 with
    | (h3, Return taskOutput) => run_tasks post taskOutput ctx h3
    | (h3, Throw _) => pipeline_catch ctx h3
    end.
Proof. intros Hpre. by rewrite run_tasks_app, Hpre. Qed.

Lemma X15_witness :
  ∃ h1,
    run_tasks [BareTask task_ab] (VString "1") 1
      (<[1 := baseContext]> heap0) =
      (h1, Return (mkPipelineOutput (VString "a:1:b") 1)) ∧
    run_tasks ([BareTask task_ab] ++ Entry UndefinedSelector (pure_task []) :: [])
      (VString "1") 1 (<[1 := baseContext]> heap0) =
      match Task_run (pure_task []) VUndefined 1 h1 with
      | (h3, Return taskOutput) => run_tasks [] taskOutput 1 h3
      | (h3, Throw _) => pipeline_catch 1 h3
      end.
Proof.
  eexists. split; [reflexivity|].
  apply (X15_undefined_selector_passes_undefined [BareTask task_ab] []
           (pure_task []) (VString "1") (VString "a:1:b") 1
           (<[1 := baseContext]> heap0)).
  reflexivity.
Defined.

Example undefined_selector_example :
  (Pipeline_run
     (mkPipeline "p" [BareTask task_ab; Entry UndefinedSelector (pure_task [])])
     (VString "1") 0 heap0).2 =
    Return (mkPipelineOutput VUndefined 1) ∧
  (Pipeline_run
     (mkPipeline "p" [BareTask task_ab; Entry NoSelector (pure_task [])])
     (VString "1") 0 heap0).2 =
    Return (mkPipelineOutput (VString "a:1:b") 1).
Proof. vm_compute. done. Qed.

Lemma run_configuration_passes_output (cfg : PipelineConfiguration)
    (v : Value) (ctx : loc) (h : Heap) :
  passes_output cfg →
  run_configuration cfg v ctx h = Task_run (taskFn cfg) v ctx h.
Proof.
  destruct cfg as [t|[| |f] t]; simpl; try done. by intros ->.
Qed.

(** X18.  A bare task, an entry without selector and an entry whose
    selector returns its input are interchangeable, configuration by
    configuration: two pipelines whose configurations are, position by
    position, for the same task, each in any of the three forms, behave
    the same on every input and store, whatever their names. *)
Theorem X18_identity_selector_is_no_selector (n1 n2 : string)
    (cfgs1 cfgs2 : list PipelineConfiguration) (input : Value)
    (context : loc) (h : Heap) :
  Forall2 same_task cfgs1 cfgs2 →
  Pipeline_run (mkPipeline n1 cfgs1) input context h =
    Pipeline_run (mkPipeline n2 cfgs2) input context h.
Proof.
  intros Hsame. unfold Pipeline_run. simpl.
  generalize (<[new_loc h := spread (deref context h) baseContext]> h).
  generalize (new_loc h). intros ctx h0. revert input h0.
  induction Hsame as [|cfg1 cfg2 cfgs1 cfgs2 (H1 & H2 & Ht) _ IH];
    intros input h0; [done|]. simpl.
  rewrite (run_configuration_passes_output _ _ _ _ H1),
    (run_configuration_passes_output _ _ _ _ H2), Ht.
  destruct (Task_run (taskFn cfg2) input ctx h0) as [h1 [out|e]];
    [apply IH|done].
Qed.

Lemma X18_witness :
  Forall2 same_task
    [BareTask task_ab; Entry (Selector identity_selector) task_wrap;
     Entry NoSelector task_boom]
    [Entry (Selector identity_selector) task_ab; Entry NoSelector task_wrap;
     BareTask task_boom] ∧
  Pipeline_run
    (mkPipeline "one"
       [BareTask task_ab; Entry (Selector identity_selector) task_wrap;
        Entry NoSelector task_boom])
    (VString "1") 0 heap0 =
  Pipeline_run
    (mkPipeline "two"
       [Entry (Selector identity_selector) task_ab; Entry NoSelector task_wrap;
        BareTask task_boom])
    (VString "1") 0 heap0.
Proof.
  assert (Forall2 same_task
            [BareTask task_ab; Entry (Selector identity_selector) task_wrap;
             Entry NoSelector task_boom]
            [Entry (Selector identity_selector) task_ab;
             Entry NoSelector task_wrap; BareTask task_boom]) as Hsame.
  { repeat constructor. }
  split; [exact Hsame|].
  exact (X18_identity_selector_is_no_selector "one" "two" _ _ (VString "1")
           0 heap0 Hsame).
Defined.

(** ** Tools: [executeTool] *)

(** X16.  [executeTool] gives the output of the tool when [execute] is
    fulfilled; when it is rejected, the rejection is always a [ToolError]:
    the very one the tool raised if it raised one, whatever its code, and
    otherwise a new one with code ["E_FALL"], the tool, the raised value as
    its single error, and a message that names the tool. *)
Theorem X16_executeTool_wraps_once (tool : Tool) (input : Value)
    (context : BaseToolContext) :
  (∀ output, tool_execute tool input context = Fulfilled output →
             executeTool tool input context = Fulfilled output) ∧
  (∀ error, tool_execute tool input context = Rejected error →
     ∃ e, executeTool tool input context = Rejected e ∧
          instanceof_ToolError e = true ∧
          (instanceof_ToolError error = true → e = error) ∧
          (instanceof_ToolError error = false →
             e = VToolError "E_FALL" tool [error]
                   ("Uncaucht error in tool " +:+ tool_name tool))) ∧
  (∀ output, executeTool tool input context = Fulfilled output →
             tool_execute tool input context = Fulfilled output).
Proof.
  unfold executeTool. split; [|split].
  - by intros output ->.
  - intros error ->. eexists. split; [done|].
    destruct error as [v|code t errs msg]; simpl; by repeat split.
  - intros output. by destruct (tool_execute tool input context).
Qed.

Lemma executeTool_guarded_eq (tool : Tool) (input : Value)
    (context : BaseToolContext) :
  tool_name (guarded tool) = tool_name tool ∧
  tool_execute (guarded tool) input context = executeTool tool input context.
Proof. by destruct tool. Qed.

(** X17.  Guarding a tool twice changes nothing but the tool a new error
    names: a fulfilled call is fulfilled with the same output, a
    [ToolError] of the tool goes through both guards unchanged, and any
    other rejection is wrapped once, by the inner guard, never twice. *)
Theorem X17_executeTool_never_wraps_twice (tool : Tool) (input : Value)
    (context : BaseToolContext) :
  executeTool (guarded tool) input context = executeTool tool input context.
Proof.
  destruct (executeTool_guarded_eq tool input context) as [_ Hex].
  unfold executeTool at 1. rewrite Hex. unfold executeTool.
  by destruct (tool_execute tool input context) as [o|[v|code t errs msg]].
Qed.

Example executeTool_examples :
  executeTool tool_echo (VString "x") (mkToolContext ∅) =
    Fulfilled (VString "x") ∧
  executeTool tool_down (VString "x") (mkToolContext ∅) =
    Rejected (VToolError "E_FALL" tool_down [NotToolError (VError "offline")]
                "Uncaucht error in tool Down") ∧
  executeTool (guarded tool_down) (VString "x") (mkToolContext ∅) =
    Rejected (VToolError "E_FALL" tool_down [NotToolError (VError "offline")]
                "Uncaucht error in tool Down").
Proof. by vm_compute. Qed.
